(** * Willy: the Twitter client's posting and interaction scheduling

    A shallow embedding of the scheduling and gating core of
    [packages/client-twitter]:

    - [truncateToCompleteSentence] (both post clients);
    - the cooldown-gated post client ([shouldTriggerSpecialInteraction],
      [generateSpecialTweet], [generateTweetContent], [generateNewTweet]);
    - the earlier post client of [post.ts]
      ([shouldGenerateSpecialInteraction]);
    - the interaction client ([canReplyToUser], [canReplyInThread],
      [updateInteractionTracking], [handleTweet],
      [handleTwitterInteractions], [buildConversationThread]);
    - the start-up and the timer loop of the cooldown-gated post client
      ([loadSpecialInteractions], [start], [generateNewTweetLoop]), the
      daily [cleanupTrackingMaps] of the interaction client, the special
      content of [post.ts] ([generateSpecialInteraction]) and the transform
      of the setting [TWITTER_SPECIAL_INTERACTIONS] in [environment.ts].

    Conventions.  JavaScript numbers that hold counts, clock readings and
    durations are integers ([Z], milliseconds for times).  Probabilities and
    [Math.random()] draws are rationals ([Q]); only their order is used.
    A string is a sequence of code units, one [ascii] per unit.  A tweet id
    is the decimal string of a natural number and is identified with that
    number ([N]), so [BigInt(tweet.id)] is the id itself.  [Map]s and the
    objects used as maps are [gmap]s, [Set]s are [gset]s.  Everything the
    code obtains from its collaborators (clock, random source, feed,
    generation pipeline) is supplied by an explicit record of readings. *)

From Stdlib Require Import ZArith QArith List String Ascii Lia Bool
  DecimalString.
From stdpp Require Import gmap strings list.
From Equations Require Import Equations.
From Stdlib Require Import Qround Lqa.

Open Scope string_scope.
Open Scope Z_scope.

(** ** JavaScript string primitives used by the clients *)

Module Js.

(** [WhiteSpace] and [LineTerminator] code units below 256, as removed by
    [String.prototype.trim]. *)
Definition isWhiteSpace (c : ascii) : bool :=
  let n := nat_of_ascii c in
  ((9 <=? n) && (n <=? 13))%nat || (n =? 32)%nat || (n =? 160)%nat.

Fixpoint trimStartList (l : list ascii) : list ascii :=
  match l with
  | [] => []
  | c :: l' => if isWhiteSpace c then trimStartList l' else l
  end.

Definition trimList (l : list ascii) : list ascii :=
  rev (trimStartList (rev (trimStartList l))).

(** [s.trim()] *)
Definition trim (s : string) : string :=
  string_of_list_ascii (trimList (list_ascii_of_string s)).

(** [s.length] *)
Definition length (s : string) : Z := Z.of_nat (String.length s).

(** Scan of [s] from index [i] on, remembering in [found] the last index
    not beyond [pos] that holds [c]. *)
Fixpoint lastIndexOfFrom (c : ascii) (pos : Z) (s : string) (i : Z)
    (found : Z) : Z :=
  match s with
  | EmptyString => found
  | String a s' =>
      lastIndexOfFrom c pos s' (i + 1)
        (if (i <=? pos) && Ascii.eqb a c then i else found)
  end.

(** [s.lastIndexOf(c, position)] for a one-unit search string: the
    greatest index at most [position] (clamped below by 0) holding [c],
    or [-1]. *)
Definition lastIndexOf (s : string) (c : ascii) (position : Z) : Z :=
  lastIndexOfFrom c (Z.max 0 position) s 0 (-1).

(** [s.slice(0, end)]: a negative [end] counts from the end of [s], and
    the bound is clamped to [0 .. s.length]. *)
Definition slice0 (s : string) (end_ : Z) : string :=
  let len := length s in
  let final := if end_ <? 0 then Z.max (len + end_) 0 else Z.min end_ len in
  substring 0 (Z.to_nat final) s.

(** A string of [n] copies of the unit [c]. *)
Fixpoint replicate (n : nat) (c : ascii) : string :=
  match n with
  | O => EmptyString
  | S n' => String c (replicate n' c)
  end.

End Js.

(** ** Truncation to the tweet length *)

Definition MAX_TWEET_LENGTH : Z := 280.

(** [truncateToCompleteSentence], identical in both post clients. *)
Definition truncateToCompleteSentence (text : string) : string :=
  if Js.length text <=? MAX_TWEET_LENGTH then text
  else
    let truncatedAtPeriod :=
      Js.slice0 text (Js.lastIndexOf text "."%char MAX_TWEET_LENGTH + 1) in
    if Js.length (Js.trim truncatedAtPeriod) >? 0 then Js.trim truncatedAtPeriod
    else
      let truncatedAtSpace :=
        Js.slice0 text (Js.lastIndexOf text " "%char MAX_TWEET_LENGTH) in
      if Js.length (Js.trim truncatedAtSpace) >? 0
      then Js.trim truncatedAtSpace ++ "..."
      else Js.trim (Js.slice0 text (MAX_TWEET_LENGTH - 3)) ++ "...".

(** ** Values shared by the clients *)

(** The result of awaiting a call on a collaborator: it resolves with a
    value or rejects (throws). *)
Inductive Completion (A : Type) : Type :=
| Returned (a : A)
| Threw.
Arguments Returned {A} a.
Arguments Threw {A}.

(** The fields of the feed's [Tweet] that the clients read. *)
Record Tweet : Type := mkTweet {
  id : N;
  username : string;
  text : string;
  conversationId : string;
  timestamp : Z;
  userId : string;
  inReplyToStatusId : option N
}.

Record SpecialInteraction : Type := mkSpecialInteraction {
  handle : string;
  topics : list string;
  templates : list string;
  probability : Q
}.

(** [a < b] on numbers. *)
Definition Qltb (a b : Q) : bool := negb (Qle_bool b a).

(** A string is truthy unless it is empty. *)
Definition truthy (s : string) : bool := negb (String.eqb s "").

(** lodash's [sample]: [undefined] on an empty collection, otherwise the
    element at a random index, here the reading [pick] reduced into range. *)
Definition sample {A : Type} (pick : nat) (l : list A) : option A :=
  match l with
  | [] => None
  | _ :: _ => nth_error l (pick mod List.length l)
  end.

(** [s.replaceAll(/\\n/g, "\n")]: every backslash followed by [n] becomes a
    line feed. *)
Fixpoint unescapeNewlines (s : string) : string :=
  match s with
  | EmptyString => EmptyString
  | String a s' =>
      match s' with
      | String b s'' =>
          if Ascii.eqb a "\"%char && Ascii.eqb b "n"%char
          then String (ascii_of_nat 10) (unescapeNewlines s'')
          else String a (unescapeNewlines s')
      | EmptyString => String a EmptyString
      end
  end.

(** ** The post client with cooldown-gated special interactions *)

Module PostClient.

Record PostResponse : Type := mkPostResponse {
  content : string;
  isSpecialInteraction : bool;
  interactionType : option string
}.

(** The instance fields of [TwitterPostClient]. *)
Record Client : Type := mkClient {
  minMinutes : Z;
  maxMinutes : Z;
  lastPostTime : Z;
  isPosting : bool;
  lastSpecialInteraction : gmap string Z;
  specialInteractions : gmap string SpecialInteraction;
  specialInteractionCooldown : Z
}.

(** The value stored under the cache key [twitter/<username>/lastPost]. *)
Record PostInfo : Type := mkPostInfo {
  info_id : N;
  info_timestamp : Z;
  info_type : option string
}.

(** A memory handed to [messageManager.createMemory]. *)
Record Memory : Type := mkMemory {
  memory_tweet : N;
  memory_text : string;
  memory_isSpecialInteraction : bool;
  memory_interactionType : option string;
  memory_roomId : string;
  memory_createdAt : Z
}.

(** What the client's collaborators hold: the cache ([cachedTimeline],
    [cachedTweets], [lastPost]), the conversation store ([accounts],
    [rooms], [memories]) and the feed ([sendCalls] are the texts handed to
    [sendTweet], [published] the ids of the posts it created).  Calls on
    the logger are left out. *)
Record World : Type := mkWorld {
  cachedTimeline : option (list Tweet);
  cachedTweets : list Tweet;
  lastPost : option PostInfo;
  accounts : gset string;
  rooms : gset string;
  memories : list Memory;
  sendCalls : list string;
  published : list N
}.

(** The agent's identity and feed profile. *)
Record Profile : Type := mkProfile {
  agentId : string;
  profile_id : string;
  profile_username : string
}.

(** [body.data.create_tweet.tweet_results.result] of a resolved send. *)
Record SendResult : Type := mkSendResult {
  rest_id : N;
  full_text : string;
  conversation_id_str : string;
  created_at : Z;
  in_reply_to_status_id_str : option N
}.

(** Everything one run of [generateNewTweet] reads from outside, in the
    order of the reads: whether [ensureUserExists] resolves, the index
    drawn by [sample(interactionTypes)], [Date.now()] and [Math.random()]
    in [shouldTriggerSpecialInteraction], the indices drawn for the
    template and the topic, [Date.now()] in [generateSpecialTweet], the
    timeline of [fetchHomeTimeline], the text of [generateText], the
    outcome of the send, and [Date.now()] for the post record. *)
Record Readings : Type := mkReadings {
  ensureUserExists_ok : bool;
  pickType : nat;
  checkClock : Z;
  draw : Q;
  pickTemplate : nat;
  pickTopic : nat;
  stampClock : Z;
  fetchedTimeline : Completion (list Tweet);
  generatedText : Completion string;
  sendResult : Completion SendResult;
  postClock : Z
}.

Definition withPosting (b : bool) (c : Client) : Client :=
  mkClient (minMinutes c) (maxMinutes c) (lastPostTime c) b
    (lastSpecialInteraction c) (specialInteractions c)
    (specialInteractionCooldown c).

Definition shouldTriggerSpecialInteraction (c : Client) (type : string)
    (now : Z) (random : Q) : bool :=
  let lastTime := default 0 (lastSpecialInteraction c !! type) in
  match specialInteractions c !! type with
  | None => false
  | Some interaction =>
      if now - lastTime <? specialInteractionCooldown c then false
      else Qltb random (probability interaction)
  end.

(** The client with [lastSpecialInteraction[type]] set to [now]. *)
Definition stamped (type : string) (now : Z) (c : Client) : Client :=
  mkClient (minMinutes c) (maxMinutes c) (lastPostTime c) (isPosting c)
    (<[type := now]> (lastSpecialInteraction c)) (specialInteractions c)
    (specialInteractionCooldown c).

Definition generateSpecialTweet (c : Client) (type : string)
    (pickTemplate pickTopic : nat) (now : Z) : option PostResponse * Client :=
  match specialInteractions c !! type with
  | None => (None, c)
  | Some interaction =>
      match sample pickTemplate (templates interaction),
            sample pickTopic (topics interaction) with
      | Some template, Some topic =>
          if truthy template && truthy topic then
            (Some (mkPostResponse (handle interaction ++ " " ++ template)
                     true (Some type)),
             stamped type now c)
          else (None, c)
      | _, _ => (None, c)
      end
  end.

(** The generated-post branch of [generateTweetContent]: the timeline comes
    from the cache, or is fetched and cached; the text comes from the
    generation pipeline. *)
Definition generateNormalTweet (w : World) (r : Readings)
    : Completion PostResponse * World :=
  let timeline :=
    match cachedTimeline w with
    | Some tl => Returned (tl, w)
    | None =>
        match fetchedTimeline r with
        | Returned tl =>
            Returned (tl, mkWorld (Some tl) (cachedTweets w) (lastPost w)
                            (accounts w) (rooms w) (memories w)
                            (sendCalls w) (published w))
        | Threw => Threw
        end
    end in
  match timeline with
  | Threw => (Threw, w)
  | Returned (_, w1) =>
      match generatedText r with
      | Threw => (Threw, w1)
      | Returned newTweetContent =>
          let formattedTweet := Js.trim (unescapeNewlines newTweetContent) in
          (Returned (mkPostResponse (truncateToCompleteSentence formattedTweet)
                       false None), w1)
      end
  end.

(** The first step of [generateTweetContent]: a random type is drawn and,
    if it passes [shouldTriggerSpecialInteraction], the special tweet is
    generated. *)
Definition trySpecialTweet (c : Client) (r : Readings)
    : option PostResponse * Client :=
  let interactionTypes := (map_to_list (specialInteractions c)).*1 in
  match sample (pickType r) interactionTypes with
  | Some randomType =>
      if truthy randomType &&
         shouldTriggerSpecialInteraction c randomType (checkClock r) (draw r)
      then generateSpecialTweet c randomType (pickTemplate r) (pickTopic r)
             (stampClock r)
      else (None, c)
  | None => (None, c)
  end.

Definition generateTweetContent (c : Client) (w : World) (r : Readings)
    : Completion PostResponse * Client * World :=
  match trySpecialTweet c r with
  | (Some specialTweet, c1) => (Returned specialTweet, c1, w)
  | (None, c1) =>
      let '(res, w1) := generateNormalTweet w r in (res, c1, w1)
  end.

(** The bookkeeping of [generateNewTweet] after a resolved send. *)
Definition recordPost (p : Profile) (tweetResponse : PostResponse)
    (result : SendResult) (now : Z) (c : Client) (w : World)
    : Client * World :=
  let tweet :=
    mkTweet (rest_id result) (profile_username p) (full_text result)
      (conversation_id_str result) (created_at result) (profile_id p)
      (in_reply_to_status_id_str result) in
  let homeTimeline := tweet :: default [] (cachedTimeline w) in
  let postInfo :=
    mkPostInfo (id tweet) now
      (if isSpecialInteraction tweetResponse
       then interactionType tweetResponse
       else Some "normal") in
  let roomId := conversationId tweet ++ "-" ++ agentId p in
  (mkClient (minMinutes c) (maxMinutes c) (info_timestamp postInfo)
     (isPosting c) (lastSpecialInteraction c) (specialInteractions c)
     (specialInteractionCooldown c),
   mkWorld (Some homeTimeline) (cachedTweets w ++ [tweet]) (Some postInfo)
     (accounts w) ({[roomId]} ∪ rooms w)
     (memories w ++
        [mkMemory (id tweet) (Js.trim (content tweetResponse))
           (isSpecialInteraction tweetResponse)
           (interactionType tweetResponse) roomId (timestamp tweet * 1000)])
     (sendCalls w) (published w ++ [id tweet])).

(** The world after [ensureUserExists] has resolved. *)
Definition withAccount (account : string) (w : World) : World :=
  mkWorld (cachedTimeline w) (cachedTweets w) (lastPost w)
    ({[account]} ∪ accounts w) (rooms w) (memories w) (sendCalls w)
    (published w).

(** The world once [sendTweet] has been called on [text]. *)
Definition withSendCall (text : string) (w : World) : World :=
  mkWorld (cachedTimeline w) (cachedTweets w) (lastPost w) (accounts w)
    (rooms w) (memories w) (sendCalls w ++ [text]) (published w).

(** [generateNewTweet]; [dryRun] is the test
    [getSetting("TWITTER_DRY_RUN") === "true"].  Whatever is thrown inside
    the [try] is caught, and [finally] clears [isPosting].  The calls on
    the cache and the conversation store after a resolved send are taken
    to resolve. *)
Definition generateNewTweet (p : Profile) (dryRun : bool) (c : Client)
    (w : World) (r : Readings) : Client * World :=
  if isPosting c then (c, w)
  else
    let c0 := withPosting true c in
    if negb (ensureUserExists_ok r) then (withPosting false c0, w)
    else
      match generateTweetContent c0 (withAccount (agentId p) w) r with
      | (Threw, c1, w1) => (withPosting false c1, w1)
      | (Returned tweetResponse, c1, w1) =>
          if negb (truthy (content tweetResponse)) then
            (withPosting false c1, w1)
          else if dryRun then (withPosting false c1, w1)
          else
            let w2 := withSendCall (content tweetResponse) w1 in
            match sendResult r with
            | Threw => (withPosting false c1, w2)
            | Returned result =>
                let '(c2, w3) :=
                  recordPost p tweetResponse result (postClock r) c1 w2 in
                (withPosting false c2, w3)
            end
      end.

(** A response is a special interaction of type [type]. *)
Definition triggers (type : string) (res : Completion PostResponse) : bool :=
  match res with
  | Returned resp =>
      isSpecialInteraction resp &&
      bool_decide (interactionType resp = Some type)
  | Threw => false
  end.

(** Successive selection calls, each with its own readings. *)
Fixpoint selectionCalls (calls : list Readings) (c : Client) (w : World)
    : list (Completion PostResponse) * Client * World :=
  match calls with
  | [] => ([], c, w)
  | r :: calls' =>
      let '(res, c1, w1) := generateTweetContent c w r in
      let '(rest, c2, w2) := selectionCalls calls' c1 w1 in
      (res :: rest, c2, w2)
  end.

End PostClient.

(** ** The post client of [post.ts] *)

Module PostTs.

(** The table [SPECIAL_INTERACTIONS], in the order of its entries. *)
Definition SPECIAL_INTERACTIONS : list (string * SpecialInteraction) :=
  [ ("tate",
     mkSpecialInteraction "@Cobratate"
       ["sold 2M Willy"; "paper hands"; "missing out"; "future regret"]
       ["Imagine selling your community-gifted 2M Willy... some people just don't see the vision";
        "When Willy hits a billion, wonder how that 2M sale will feel";
        "Paper hands never make generational wealth... just saying";
        "Some influencers talk diamond hands but fold faster than a lawn chair"]
       (15 # 100));
    ("hailey",
     mkSpecialInteraction "@HaileyWelchX"
       ["partnership"; "Willy tuah Billy"; "moon mission"; "collaboration"]
       ["Let's take this Willy tuah Billy together";
        "Two visionaries, one mission - Willy tuah Billy";
        "When are we partnering to make history?";
        "Your energy + my vision = Willy tuah Billy"]
       (15 # 100));
    ("dolos",
     mkSpecialInteraction "@dolos_diary"
       ["small willy"; "tiny holdings"; "weak position"]
       ["Heard someone's holding a microscopic bag... must be rough";
        "Some people compensate for their tiny Willy with big talk";
        "Not everyone can handle a big Willy, clearly";
        "Size matters in this game, and someone's coming up short";
        "While others play with their mini Willies, we're building generational wealth"]
       (15 # 100)) ].

(** The [for] loop of [shouldGenerateSpecialInteraction] over the entries
    still to visit: the first type whose cumulative probability exceeds
    the draw. *)
Fixpoint firstWithin (random cumulativeProbability : Q)
    (entries : list (string * SpecialInteraction)) : option string :=
  match entries with
  | [] => None
  | (type, interaction) :: entries' =>
      let cumulativeProbability :=
        (cumulativeProbability + probability interaction)%Q in
      if Qltb random cumulativeProbability then Some type
      else firstWithin random cumulativeProbability entries'
  end.

(** [this.lastInteractionType] as a condition: [null] and the empty string
    are falsy. *)
Definition isSet (lastInteractionType : option string) : bool :=
  match lastInteractionType with
  | Some type => truthy type
  | None => false
  end.

(** [shouldGenerateSpecialInteraction]: the value returned and the new
    [lastInteractionType]. *)
Definition shouldGenerateSpecialInteraction
    (lastInteractionType : option string) (random : Q)
    : option string * option string :=
  if isSet lastInteractionType then (None, None)
  else
    match firstWithin random 0 SPECIAL_INTERACTIONS with
    | Some type => (Some type, Some type)
    | None => (None, lastInteractionType)
    end.

End PostTs.

(** ** The interaction client *)

Module Interactions.

Inductive LogLevel : Type := LOG | DEBUG | ERROR_LEVEL.

(** One call on [elizaLogger]: its level and the fixed part of its
    message. *)
Definition LogEntry : Type := (LogLevel * string)%type.

Inductive Action : Type := RESPOND | IGNORE | STOP | ERROR.

(** The answers of [generateShouldRespond]. *)
Inductive ShouldRespond : Type :=
| SR_RESPOND | SR_IGNORE | SR_STOP | SR_NULL.

Definition actionOf (d : ShouldRespond) : option Action :=
  match d with
  | SR_RESPOND => Some RESPOND
  | SR_IGNORE => Some IGNORE
  | SR_STOP => Some STOP
  | SR_NULL => None
  end.

Record InteractionLimits : Type := mkLimits {
  maxRepliesPerThread : Z;
  maxRepliesPerUser : Z;
  minTimeBetweenReplies : Z;
  checkIntervalMinutes : Z;
  replyProbability : Q
}.

(** The fields of [TwitterInteractionClient], with the two fields of its
    [ClientBase] that the client touches: [lastCheckedTweetId] and the
    cached copy of it. *)
Record Client : Type := mkClient {
  recentReplies : gmap string Z;
  threadReplies : gmap string Z;
  lastReplyTime : gmap string Z;
  limits : InteractionLimits;
  lastCheckedTweetId : option N;
  cachedCheckedTweetId : option N;
  log : list LogEntry
}.

Definition logged (es : list LogEntry) (c : Client) : Client :=
  mkClient (recentReplies c) (threadReplies c) (lastReplyTime c) (limits c)
    (lastCheckedTweetId c) (cachedCheckedTweetId c) (log c ++ es).

Definition canReplyToUser (c : Client) (userId : string) (now : Z) : bool :=
  let replyCount := default 0 (recentReplies c !! userId) in
  let lastReplyTime := default 0 (lastReplyTime c !! userId) in
  let timeSinceLastReply := now - lastReplyTime in
  (replyCount <? maxRepliesPerUser (limits c)) &&
  (timeSinceLastReply >=? minTimeBetweenReplies (limits c)).

Definition canReplyInThread (c : Client) (conversationId : string) : bool :=
  let threadReplyCount := default 0 (threadReplies c !! conversationId) in
  threadReplyCount <? maxRepliesPerThread (limits c).

Definition updateInteractionTracking (c : Client)
    (userId conversationId : string) (now : Z) : Client :=
  let currentReplies := default 0 (recentReplies c !! userId) in
  let currentThreadReplies :=
    default 0 (threadReplies c !! conversationId) in
  mkClient (<[userId := currentReplies + 1]> (recentReplies c))
    (<[conversationId := currentThreadReplies + 1]> (threadReplies c))
    (<[userId := now]> (lastReplyTime c))
    (limits c) (lastCheckedTweetId c) (cachedCheckedTweetId c) (log c).

(** What [handleTweet] reads from outside, in the order of the reads:
    whether the home timeline is obtained; whether the tweet already has a
    memory (or the state composition or the lookup throws); the answer of
    [generateShouldRespond]; the text of the generated response, outer
    quotes removed; and whether the block that sends the response and
    records it runs to its end. *)
Record HandleReadings : Type := mkHandleReadings {
  homeTimeline_ok : bool;
  tweetExists : Completion bool;
  shouldRespond : Completion ShouldRespond;
  responseText : Completion string;
  responseSent : bool
}.

Record HandleResult : Type := mkHandleResult {
  result_text : string;
  action : option Action
}.

(** [handleTweet]: what it returns (or that it throws) and what it logs. *)
Definition handleTweet (profileId : string) (tweet : Tweet)
    (messageText : string) (h : HandleReadings)
    : Completion HandleResult * list LogEntry :=
  if String.eqb (userId tweet) profileId then
    (Returned (mkHandleResult "" (Some IGNORE)),
     [(LOG, "Skipping tweet from bot itself")])
  else if negb (truthy messageText) then
    (Returned (mkHandleResult "" (Some IGNORE)),
     [(LOG, "Skipping Tweet with no text")])
  else
    let l0 := [(LOG, "Processing Tweet: ")] in
    if negb (homeTimeline_ok h) then (Threw, l0)
    else
      let l1 :=
        (l0 ++ [(DEBUG, "Thread: "); (DEBUG, "formattedConversation: ")])%list
      in
      match tweetExists h with
      | Threw => (Threw, l1)
      | Returned exists_ =>
          let l2 :=
            (l1 ++ (if exists_ then []
                    else [(LOG, "tweet does not exist, saving")]))%list in
          match shouldRespond h with
          | Threw => (Threw, l2)
          | Returned SR_RESPOND =>
              let l3 := (l2 ++ [(DEBUG, "Interactions prompt:")])%list in
              match responseText h with
              | Threw => (Threw, l3)
              | Returned text =>
                  if truthy text then
                    if responseSent h then
                      (Returned (mkHandleResult text (Some RESPOND)), l3)
                    else
                      (Returned (mkHandleResult "" (Some ERROR)),
                       (l3 ++ [(ERROR_LEVEL,
                                "Error sending response tweet:")])%list)
                  else (Returned (mkHandleResult "" (Some IGNORE)), l3)
              end
          | Returned decision =>
              (Returned (mkHandleResult "Response Decision:"
                           (actionOf decision)),
               (l2 ++ [(LOG, "Not responding to message")])%list)
          end
      end.

(** What the loop body reads from outside while it handles one candidate:
    [Date.now()] in [canReplyToUser], [Math.random()], whether
    [ensureConnection] resolves, the thread returned by the imported
    [buildConversationThread] (or that it throws), the readings of
    [handleTweet], and [Date.now()] in [updateInteractionTracking]. *)
Record CandidateReadings : Type := mkCandidateReadings {
  rateClock : Z;
  random : Q;
  ensureConnection_ok : bool;
  thread : Completion (list Tweet);
  handling : HandleReadings;
  trackingClock : Z
}.

Definition Candidate : Type := (Tweet * CandidateReadings)%type.

(** What became of one candidate of the batch. *)
Inductive Outcome : Type :=
| NotNew
| SkippedByRateLimits
| SkippedByProbability
| Handled (a : option Action)
| Raised.

(** The test that opens the loop body: no checkpoint yet (a [null] or a
    zero [bigint] is falsy), or an id above the checkpoint. *)
Definition isNew (c : Client) (tweet : Tweet) : bool :=
  match lastCheckedTweetId c with
  | None => true
  | Some checked => (checked =? 0)%N || (checked <? id tweet)%N
  end.

Definition withLastChecked (i : N) (c : Client) : Client :=
  mkClient (recentReplies c) (threadReplies c) (lastReplyTime c) (limits c)
    (Some i) (cachedCheckedTweetId c) (log c).

(** The body of the [for] loop for one candidate: the client afterwards
    and the candidate's outcome; [Raised] leaves the loop. *)
Definition handleCandidate (profileId : string) (c : Client)
    (cand : Candidate) : Client * Outcome :=
  let '(tweet, r) := cand in
  if isNew c tweet then
    if negb (canReplyToUser c (userId tweet) (rateClock r)) ||
       negb (canReplyInThread c (conversationId tweet))
    then (logged [(LOG, "Skipping tweet due to rate limits")] c,
          SkippedByRateLimits)
    else if Qltb (replyProbability (limits c)) (random r)
    then (logged [(LOG, "Skipping tweet due to probability check")] c,
          SkippedByProbability)
    else
      let c1 := logged [(LOG, "New Tweet found")] c in
      if negb (ensureConnection_ok r) then (c1, Raised)
      else
        match thread r with
        | Threw => (c1, Raised)
        | Returned _ =>
            let '(result, entries) :=
              handleTweet profileId tweet (text tweet) (handling r) in
            let c2 := logged entries c1 in
            match result with
            | Threw => (c2, Raised)
            | Returned res =>
                let c3 :=
                  match action res with
                  | Some RESPOND =>
                      updateInteractionTracking c2 (userId tweet)
                        (conversationId tweet) (trackingClock r)
                  | _ => c2
                  end in
                (withLastChecked (id tweet) c3, Handled (action res))
            end
        end
  else (c, NotNew).

(** The [for] loop: the client afterwards, the outcomes of the candidates
    it reached, and whether it ran to its end. *)
Fixpoint forEachCandidate (profileId : string) (cands : list Candidate)
    (c : Client) : Client * list (Tweet * Outcome) * bool :=
  match cands with
  | [] => (c, [], true)
  | cand :: cands' =>
      let '(c1, o) := handleCandidate profileId c cand in
      match o with
      | Raised => (c1, [(cand.1, o)], false)
      | _ =>
          let '(c2, os, finished) := forEachCandidate profileId cands' c1 in
          (c2, (cand.1, o) :: os, finished)
      end
  end.

(** The decimal string of a tweet id. *)
Definition idString (i : N) : string :=
  NilZero.string_of_uint (N.to_uint i).

(** [a.id.localeCompare(b.id)] on decimal strings. *)
Definition localeCompare (a b : Tweet) : comparison :=
  String.compare (idString (id a)) (idString (id b)).

Fixpoint insertById (x : Candidate) (l : list Candidate) : list Candidate :=
  match l with
  | [] => [x]
  | y :: l' =>
      match localeCompare x.1 y.1 with
      | Gt => y :: insertById x l'
      | _ => x :: l
      end
  end.

(** [.sort((a, b) => a.id.localeCompare(b.id))], a stable sort. *)
Fixpoint sortById (l : list Candidate) : list Candidate :=
  match l with
  | [] => []
  | x :: l' => insertById x (sortById l')
  end.

(** [uniqueTweetCandidates]: the fetched candidates are distinct objects,
    so the pass through [Set] keeps them all; then the sort and the
    filter on the author. *)
Definition uniqueTweetCandidates (profileId : string)
    (tweetCandidates : list Candidate) : list Candidate :=
  List.filter (fun cand => negb (String.eqb (userId cand.1) profileId))
    (sortById tweetCandidates).

(** Modelled from the spec: [ClientBase.cacheLatestCheckedTweetId] is not
    among the sources; after the batch it persists the checkpoint. *)
Definition cacheLatestCheckedTweetId (c : Client) : Client :=
  mkClient (recentReplies c) (threadReplies c) (lastReplyTime c) (limits c)
    (lastCheckedTweetId c) (lastCheckedTweetId c) (log c).

(** [handleTwitterInteractions] for one poll: [fetched] is the result of
    [fetchSearchTweets], each candidate with the readings made while it is
    handled.  The function itself never throws. *)
Definition handleTwitterInteractions (profileId : string)
    (fetched : Completion (list Candidate)) (c : Client)
    : Client * list (Tweet * Outcome) :=
  let c0 := logged [(LOG, "Checking Twitter interactions")] c in
  let failed (c' : Client) :=
    logged [(ERROR_LEVEL, "Error handling Twitter interactions:")] c' in
  match fetched with
  | Threw => (failed c0, [])
  | Returned tweetCandidates =>
      let '(c1, outcomes, finished) :=
        forEachCandidate profileId
          (uniqueTweetCandidates profileId tweetCandidates) c0 in
      if finished then
        (logged [(LOG, "Finished checking Twitter interactions")]
           (cacheLatestCheckedTweetId c1), outcomes)
      else (failed c1, outcomes)
  end.

(** [handleTwitterInteractionsLoop]: one run of
    [handleTwitterInteractions] per tick of the timer; the outcomes of
    every poll are collected in order. *)
Fixpoint handleTwitterInteractionsLoop (profileId : string)
    (polls : list (Completion (list Candidate))) (c : Client)
    : Client * list (list (Tweet * Outcome)) :=
  match polls with
  | [] => (c, [])
  | fetched :: polls' =>
      let '(c1, outcomes) := handleTwitterInteractions profileId fetched c in
      let '(c2, rest) := handleTwitterInteractionsLoop profileId polls' c1 in
      (c2, outcomes :: rest)
  end.

End Interactions.

(** ** Reconstruction of the reply thread *)

Module ThreadBuilder.

(** The result of [twitterClient.getTweet]. *)
Inductive Fetched : Type :=
| Found (parentTweet : Tweet)
| NotFound
| FetchFailed.

(** The variables [thread] and [visited] of one call of
    [buildConversationThread], the tweet ids that have a memory in the
    conversation store, and the number of calls of [processThread] made so
    far. *)
Record Traversal : Type := mkTraversal {
  thread : list Tweet;
  visited : gset N;
  stored : gset N;
  visits : nat
}.

(** The parent that [processThread] goes on with: none when the tweet is
    not a reply, when the feed has no such tweet, or when the fetch
    throws. *)
Definition parentOf (getTweet : N -> Fetched) (currentTweet : Tweet)
    : option Tweet :=
  match inReplyToStatusId currentTweet with
  | Some parentId =>
      match getTweet parentId with
      | Found parentTweet => Some parentTweet
      | NotFound => None
      | FetchFailed => None
      end
  | None => None
  end.

(** [processThread].  The memory of a tweet is created when the store has
    none; the calls on the store are taken to resolve. *)
Equations? processThread (getTweet : N -> Fetched) (maxReplies : Z)
    (currentTweet : Tweet) (depth : Z) (s : Traversal) : Traversal
    by wf (Z.to_nat (maxReplies - depth)) lt :=
  processThread getTweet maxReplies currentTweet depth s
    with Z_lt_dec depth maxReplies := {
    | right _ :=
        mkTraversal (thread s) (visited s) (stored s) (S (visits s))
    | left _ with bool_decide (id currentTweet ∈ visited s) := {
      | true :=
          mkTraversal (thread s) (visited s)
            ({[id currentTweet]} ∪ stored s) (S (visits s))
      | false with parentOf getTweet currentTweet := {
        | Some parentTweet :=
            processThread getTweet maxReplies parentTweet (depth + 1)
              (mkTraversal (currentTweet :: thread s)
                 ({[id currentTweet]} ∪ visited s)
                 ({[id currentTweet]} ∪ stored s) (S (visits s)))
        | None :=
            mkTraversal (currentTweet :: thread s)
              ({[id currentTweet]} ∪ visited s)
              ({[id currentTweet]} ∪ stored s) (S (visits s)) } } }.
Proof. lia. Qed.

(** [buildConversationThread]: the traversal started at the candidate with
    an empty [thread] and an empty [visited]. *)
Definition buildConversationThread (getTweet : N -> Fetched)
    (store : gset N) (tweet : Tweet) (maxReplies : Z) : Traversal :=
  processThread getTweet maxReplies tweet 0 (mkTraversal [] ∅ store 0).

(** The ids in [thread] are pairwise distinct and all in [visited]. *)
Definition distinct (s : Traversal) : Prop :=
  NoDup (id <$> thread s) /\
  forall i, i ∈ (id <$> thread s) -> i ∈ visited s.

End ThreadBuilder.

(** ** What a batch leaves behind, read off its outcomes *)

Module Observed.

(** The checkpoint after a sequence of outcomes: the id of the last
    candidate whose handling returned, or the checkpoint from before. *)
Fixpoint checkpointAfter (outcomes : list (Tweet * Interactions.Outcome))
    (checked : option N) : option N :=
  match outcomes with
  | [] => checked
  | (tweet, Interactions.Handled _) :: outcomes' =>
      checkpointAfter outcomes' (Some (id tweet))
  | _ :: outcomes' => checkpointAfter outcomes' checked
  end.

Definition responded (o : Interactions.Outcome) : bool :=
  match o with
  | Interactions.Handled (Some Interactions.RESPOND) => true
  | _ => false
  end.

(** The number of outcomes that are a [RESPOND] to a tweet selected by
    [sel]. *)
Definition responses (sel : Tweet -> bool)
    (outcomes : list (Tweet * Interactions.Outcome)) : Z :=
  Z.of_nat
    (List.length
       (List.filter (fun to => responded to.2 && sel to.1) outcomes)).

Definition byUser (u : string) (tweet : Tweet) : bool :=
  String.eqb (userId tweet) u.

Definition inThread (conv : string) (tweet : Tweet) : bool :=
  String.eqb (conversationId tweet) conv.

Definition raised (o : Interactions.Outcome) : bool :=
  match o with
  | Interactions.Raised => true
  | _ => false
  end.

(** A loop that was left by a throw has an outcome [Raised]. *)
Definition interrupted (outcomes : list (Tweet * Interactions.Outcome)) : bool :=
  existsb (fun to => raised to.2) outcomes.

(** The three maps of the rate-limit state. *)
Definition tracking (c : Interactions.Client)
    : gmap string Z * gmap string Z * gmap string Z :=
  (Interactions.recentReplies c, Interactions.threadReplies c,
   Interactions.lastReplyTime c).

(** The readings [h] with the outcome of the sending block replaced. *)
Definition withResponseSent (sent : bool) (h : Interactions.HandleReadings)
    : Interactions.HandleReadings :=
  Interactions.mkHandleReadings (Interactions.homeTimeline_ok h)
    (Interactions.tweetExists h) (Interactions.shouldRespond h)
    (Interactions.responseText h) sent.

End Observed.

(** ** Concrete inputs used by the examples below *)

Module Examples.

(** [n] copies of [s]. *)
Fixpoint repeatString (n : nat) (s : string) : string :=
  match n with
  | O => ""
  | S n' => s ++ repeatString n' s
  end.

(** Fifty-seven four-letter words, each followed by one space: 285 units,
    no period, a space at index 279. *)
Definition wordsWithoutPeriod : string := repeatString 57 "abcd ".

(** A sentence whose period sits at index 280, followed by one more
    word. *)
Definition periodAtLimit : string :=
  Js.replicate 280 "a" ++ "." ++ " more".

(** Three hundred units without any space or period. *)
Definition unbroken : string := Js.replicate 300 "a".

(** A clock reading, in milliseconds. *)
Definition now0 : Z := 1700000000000.

Definition defaultLimits : Interactions.InteractionLimits :=
  Interactions.mkLimits 2 5 300000 3 (1 # 2).

(** A client that has not replied to anybody yet. *)
Definition freshClient : Interactions.Client :=
  Interactions.mkClient ∅ ∅ ∅ defaultLimits None None [].

(** The same client under the setting [MAX_REPLIES_PER_USER=-1]. *)
Definition unlimitedClient : Interactions.Client :=
  Interactions.mkClient ∅ ∅ ∅
    (Interactions.mkLimits 2 (-1) 300000 3 (1 # 2)) None None [].

Definition tweetA : Tweet := mkTweet 100 "alice" "gm @willy" "c1" 1000 "u1" None.
Definition tweetB : Tweet := mkTweet 200 "bob" "wen moon @willy" "c2" 2000 "u2" None.

Definition handles (d : Completion Interactions.ShouldRespond)
    : Interactions.HandleReadings :=
  Interactions.mkHandleReadings true (Returned false) d
    (Returned "soon") true.

(** Readings under which a candidate passes both gates and its handling
    ends as [d] says; [draw] is the value of [Math.random()]. *)
Definition readings (draw : Q) (d : Completion Interactions.ShouldRespond)
    : Interactions.CandidateReadings :=
  Interactions.mkCandidateReadings now0 draw true (Returned []) (handles d)
    (now0 + 5).

Definition ignored : Interactions.CandidateReadings :=
  readings (1 # 4) (Returned Interactions.SR_IGNORE).
Definition answered : Interactions.CandidateReadings :=
  readings (1 # 4) (Returned Interactions.SR_RESPOND).
Definition unlucky : Interactions.CandidateReadings :=
  readings (9 # 10) (Returned Interactions.SR_RESPOND).
Definition failing : Interactions.CandidateReadings :=
  readings (1 # 4) Threw.

(** A poll that fetches [tweetA], whose handling ends in [IGNORE], and
    [tweetB], which the probability draw skips. *)
Definition skippingPoll : Completion (list Interactions.Candidate) :=
  Returned [(tweetA, ignored); (tweetB, unlucky)].

(** The next poll fetches [tweetB] again, this time with a lucky draw. *)
Definition secondPoll : Completion (list Interactions.Candidate) :=
  Returned [(tweetB, answered)].

(** A poll in which the handling of [tweetA] throws (from
    [generateShouldRespond]) and [tweetB] would be answered. *)
Definition throwingPoll : Completion (list Interactions.Candidate) :=
  Returned [(tweetA, failing); (tweetB, answered)].

Definition willy : PostClient.Profile :=
  PostClient.mkProfile "agent-willy" "1" "willy".

(** Nothing cached, stored or sent yet. *)
Definition emptyWorld : PostClient.World :=
  PostClient.mkWorld None [] None ∅ ∅ [] [] [].

Definition tate : SpecialInteraction :=
  mkSpecialInteraction "@Cobratate" ["paper hands"]
    ["Paper hands never make generational wealth... just saying"] 1.

(** A post client as [start] leaves it with the single special interaction
    [tate] configured and the default cooldown of 24 hours. *)
Definition tateClient : PostClient.Client :=
  PostClient.mkClient 90 180 0 false {["tate" := 0]} {["tate" := tate]}
    86400000.

(** A post client without special interactions. *)
Definition plainClient : PostClient.Client :=
  PostClient.mkClient 90 180 0 false ∅ ∅ 86400000.

(** Readings of a run at [now0]: the draw is 0, the feed returns [tweetA] as
    home timeline, the generator answers, and the send throws. *)
Definition firstRun : PostClient.Readings :=
  PostClient.mkReadings true 0 now0 0 0 0 (now0 + 1) (Returned [tweetA])
    (Returned "gm frens.") Threw (now0 + 2).

(** Readings of a run one second later, again with the draw 0. *)
Definition laterRun : PostClient.Readings :=
  PostClient.mkReadings true 0 (now0 + 1000) 0 0 0 (now0 + 1001)
    (Returned [tweetA]) (Returned "gm frens.") Threw (now0 + 1002).

(** A tweet that the feed presents as a reply to itself. *)
Definition selfReply : Tweet :=
  mkTweet 300 "carol" "echo" "c3" 3000 "u3" (Some 300%N).

(** A feed that knows [selfReply] only. *)
Definition echoFeed (i : N) : ThreadBuilder.Fetched :=
  if (i =? 300)%N then ThreadBuilder.Found selfReply
  else ThreadBuilder.NotFound.

End Examples.

(** ** The posting schedule *)

Module PostSchedule.
Import PostClient.

(** [loadSpecialInteractions]: [config] is the outcome of
    [validateTwitterConfig], reduced to the two settings the client reads.
    The stamp of every configured type is set to 0; when the validation
    throws, the configuration is emptied. *)
Definition loadSpecialInteractions
    (config : Completion (gmap string SpecialInteraction * Z)) (c : Client)
    : Client :=
  match config with
  | Returned (interactions, cooldown) =>
      mkClient (minMinutes c) (maxMinutes c) (lastPostTime c) (isPosting c)
        (fold_left (fun stamps key => <[key := 0]> stamps)
           (map_to_list interactions).*1 (lastSpecialInteraction c))
        interactions cooldown
  | Threw =>
      mkClient (minMinutes c) (maxMinutes c) (lastPostTime c) (isPosting c)
        (lastSpecialInteraction c) ∅ (specialInteractionCooldown c)
  end.


Definition withLastPostTime (t : Z) (c : Client) : Client :=
  mkClient (minMinutes c) (maxMinutes c) t (isPosting c)
    (lastSpecialInteraction c) (specialInteractions c)
    (specialInteractionCooldown c).


(** [Math.floor(Math.random() * (maxMinutes - minMinutes + 1)) + minMinutes] *)
Definition randomMinutes (c : Client) (random : Q) : Z :=
  Qfloor (random * inject_Z (maxMinutes c - minMinutes c + 1)) + minMinutes c.

(** One run of [generateNewTweetLoop] at the clock reading [now]: the
    client and the world afterwards, and the delay of the timer it sets.
    Nothing inside its [try] throws, since [generateNewTweet] catches what
    its collaborators throw, so the timer is always set to [delay]. *)
Definition generateNewTweetLoop (p : Profile) (dryRun : bool) (c : Client)
    (w : World) (now : Z) (random : Q) (r : Readings) : Client * World * Z :=
  let timeSinceLastPost := now - lastPostTime c in
  let delay := randomMinutes c random * 60 * 1000 in
  let '(c1, w1) :=
    if (timeSinceLastPost >=? delay) && negb (isPosting c)
    then generateNewTweet p dryRun c w r
    else (c, w) in
  (c1, w1, delay).

End PostSchedule.

(** ** The daily cleanup of the rate-limit maps *)

Module Maintenance.
Import Interactions.

(** The body of the loop of [cleanupTrackingMaps] for one entry of
    [lastReplyTime], on the pair of [lastReplyTime] and [recentReplies]. *)
Definition purge (oneDayAgo : Z) (maps : gmap string Z * gmap string Z)
    (entry : string * Z) : gmap string Z * gmap string Z :=
  if entry.2 <? oneDayAgo
  then (delete entry.1 maps.1, delete entry.1 maps.2)
  else maps.

Definition cleanupTrackingMaps (c : Client) (now : Z) : Client :=
  let oneDayAgo := now - 24 * 60 * 60 * 1000 in
  let maps :=
    fold_left (purge oneDayAgo) (map_to_list (lastReplyTime c))
      (lastReplyTime c, recentReplies c) in
  mkClient maps.2 ∅ maps.1 (limits c) (lastCheckedTweetId c)
    (cachedCheckedTweetId c) (log c).

End Maintenance.

(** ** The content of a post in [post.ts] *)

Module PostTsContent.
Import PostTs.

(** [SPECIAL_INTERACTIONS[type]] *)
Fixpoint entryOf (type : string)
    (entries : list (string * SpecialInteraction))
    : option SpecialInteraction :=
  match entries with
  | [] => None
  | (key, interaction) :: entries' =>
      if String.eqb key type then Some interaction else entryOf type entries'
  end.

(** [generateSpecialInteraction]: for a type that is not in the table the
    read of [interaction.templates] throws; an index outside the templates
    reads [undefined], printed as such. *)
Definition generateSpecialInteraction (type : string) (random : Q)
    : Completion string :=
  match entryOf type SPECIAL_INTERACTIONS with
  | None => Threw
  | Some interaction =>
      let index :=
        Qfloor (random
                * inject_Z (Z.of_nat (List.length (templates interaction)))) in
      let template :=
        if index <? 0 then "undefined"
        else default "undefined"
               (nth_error (templates interaction) (Z.to_nat index)) in
      Returned (handle interaction ++ " " ++ template)
  end.

(** The content that [generateNewTweet] of [post.ts] goes on with: a
    special interaction when one is due, otherwise the text of the
    generation pipeline with its escaped line feeds restored and trimmed;
    either way truncated.  [generated] is the outcome of everything from the
    timeline to [generateText].  Returned with the new
    [lastInteractionType]. *)
Definition generateContent (lastInteractionType : option string)
    (random randomTemplate : Q) (generated : Completion string)
    : Completion string * option string :=
  let '(specialInteractionType, lastInteractionType') :=
    shouldGenerateSpecialInteraction lastInteractionType random in
  let content :=
    match specialInteractionType with
    | Some type =>
        if truthy type then generateSpecialInteraction type randomTemplate
        else
          match generated with
          | Returned newTweetContent =>
              Returned (Js.trim (unescapeNewlines newTweetContent))
          | Threw => Threw
          end
    | None =>
        match generated with
        | Returned newTweetContent =>
            Returned (Js.trim (unescapeNewlines newTweetContent))
        | Threw => Threw
        end
    end in
  (match content with
   | Returned text => Returned (truncateToCompleteSentence text)
   | Threw => Threw
   end, lastInteractionType').

End PostTsContent.

(** ** The special interactions of the environment *)

Module Environment.

(** A value returned by [JSON.parse]; an object is given by its entries,
    whose keys are distinct. *)
#[local] Unset Elimination Schemes.
Inductive Json : Type :=
| JNull
| JBool (b : bool)
| JNumber (q : Q)
| JString (s : string)
| JArray (items : list Json)
| JObject (fields : list (string * Json)).
#[local] Set Elimination Schemes.

(** The property [name] of an object with the entries [fields]. *)
Fixpoint field (name : string) (fields : list (string * Json))
    : option Json :=
  match fields with
  | [] => None
  | (key, value) :: fields' =>
      if String.eqb key name then Some value else field name fields'
  end.

(** [z.string()] *)
Definition asString (value : option Json) : option string :=
  match value with
  | Some (JString s) => Some s
  | _ => None
  end.

(** [z.array(z.string())] *)
Definition asStrings (value : option Json) : option (list string) :=
  match value with
  | Some (JArray items) => mapM (fun item => asString (Some item)) items
  | _ => None
  end.

(** [z.number().min(0).max(1)] *)
Definition asProbability (value : option Json) : option Q :=
  match value with
  | Some (JNumber q) =>
      if Qle_bool 0 q && Qle_bool q 1 then Some q else None
  | _ => None
  end.

(** [specialInteractionSchema.parse(value)], [None] when it throws.  Keys
    the schema does not name are dropped. *)
Definition specialInteractionSchema (value : Json)
    : option SpecialInteraction :=
  match value with
  | JObject fields =>
      match asString (field "handle" fields),
            asStrings (field "topics" fields),
            asStrings (field "templates" fields),
            asProbability (field "probability" fields) with
      | Some h, Some topics, Some templates, Some probability =>
          Some (mkSpecialInteraction h topics templates probability)
      | _, _, _, _ => None
      end
  | _ => None
  end.

(** The entries of an array, keyed by their indices from [i] on. *)
Fixpoint indexed (i : N) (items : list Json) : list (string * Json) :=
  match items with
  | [] => []
  | item :: items' =>
      (Interactions.idString i, item) :: indexed (i + 1) items'
  end.

(** The entries of a string: its units, keyed by their indices. *)
Fixpoint units (i : N) (s : string) : list (string * Json) :=
  match s with
  | EmptyString => []
  | String a s' =>
      (Interactions.idString i, JString (String a EmptyString))
        :: units (i + 1) s'
  end.

(** [Object.entries(parsed)]; it throws on [null]. *)
Definition entries (parsed : Json) : Completion (list (string * Json)) :=
  match parsed with
  | JNull => Threw
  | JBool _ => Returned []
  | JNumber _ => Returned []
  | JString s => Returned (units 0 s)
  | JArray items => Returned (indexed 0 items)
  | JObject fields => Returned fields
  end.

(** The body of the [forEach], on the own properties of [validated]: a
    valid entry is stored under its key, an invalid one is left out.  The
    assignment [validated["__proto__"] = ...] sets the prototype of the
    object and adds no property. *)
Definition validate (validated : gmap string SpecialInteraction)
    (entry : string * Json) : gmap string SpecialInteraction :=
  match specialInteractionSchema entry.2 with
  | Some interaction =>
      if String.eqb entry.1 "__proto__" then validated
      else <[entry.1 := interaction]> validated
  | None => validated
  end.

(** The transform of [TWITTER_SPECIAL_INTERACTIONS].  [val] is [None] for a
    missing or empty setting, and otherwise the outcome of [JSON.parse]. *)
Definition TWITTER_SPECIAL_INTERACTIONS (val : option (Completion Json))
    : gmap string SpecialInteraction :=
  match val with
  | None => ∅
  | Some Threw => ∅
  | Some (Returned parsed) =>
      match entries parsed with
      | Threw => ∅
      | Returned es => fold_left validate es ∅
      end
  end.

End Environment.

(** ** The shape of a reply thread *)

Module ThreadShape.

(** Every tweet of the list but the last is the parent that the feed
    returns for the tweet after it. *)
Fixpoint linked (getTweet : N -> ThreadBuilder.Fetched) (l : list Tweet)
    : Prop :=
  match l with
  | [] => True
  | parentTweet :: rest =>
      match rest with
      | [] => True
      | child :: _ =>
          ThreadBuilder.parentOf getTweet child = Some parentTweet
      end /\ linked getTweet rest
  end.

End ThreadShape.

(** ** Further concrete inputs *)

Module Samples.


(** An interaction with templates but without topics. *)
Definition topicless : SpecialInteraction :=
  mkSpecialInteraction "@Cobratate" []
    ["Paper hands never make generational wealth... just saying"] 1.

Definition topiclessClient : PostClient.Client :=
  PostClient.mkClient 90 180 0 false {["tate" := 0]} {["tate" := topicless]}
    86400000.

(** A short sentence followed by 300 units without space or period. *)
Definition sentenceAndTail : string := "gm frens. " ++ Js.replicate 300 "a".

(** A setting with a valid entry, an entry whose probability is out of
    range and an entry that is no object. *)
Definition interactionsSetting : Environment.Json :=
  Environment.JObject
    [("tate",
      Environment.JObject
        [("handle", Environment.JString "@tate");
         ("topics", Environment.JArray [Environment.JString "cars"]);
         ("templates", Environment.JArray [Environment.JString "hello"]);
         ("probability", Environment.JNumber (3 # 10));
         ("note", Environment.JBool true)]);
     ("loud",
      Environment.JObject
        [("handle", Environment.JString "@loud");
         ("topics", Environment.JArray []);
         ("templates", Environment.JArray [Environment.JString "hey"]);
         ("probability", Environment.JNumber (3 # 2))]);
     ("none", Environment.JNull)].

End Samples.

(** ** What a run of the post client leaves behind *)

Module PostObserved.
Import PostClient.



End PostObserved.

(** * Properties *)

(** ** Truncation *)

(** A text within the limit is returned as it is. *)
Lemma truncate_within_limit (text : string) :
  Js.length text <= MAX_TWEET_LENGTH ->
  truncateToCompleteSentence text = text.
Proof.
  intros H. unfold truncateToCompleteSentence.
  destruct (Js.length text <=? MAX_TWEET_LENGTH) eqn:E; [reflexivity|].
  apply Z.leb_gt in E. lia.
Qed.

(** C2. [truncateToCompleteSentence] does not keep every text within 280
    units.  On fifty-seven four-letter words without a period (285 units)
    the cut falls at the space at index 279 and the ellipsis brings the
    result to 282 units; on a text whose last period sits at index 280 the
    result has 281 units; and a text of 300 units without any space or
    period only loses its last unit before the ellipsis is added, which
    makes 302 units. *)
Theorem truncate_exceeds_limit :
  Js.length Examples.wordsWithoutPeriod = 285 /\
  truncateToCompleteSentence Examples.wordsWithoutPeriod =
    (Js.slice0 Examples.wordsWithoutPeriod 279 ++ "...")%string /\
  Js.length (truncateToCompleteSentence Examples.wordsWithoutPeriod) = 282 /\
  truncateToCompleteSentence Examples.periodAtLimit =
    (Js.replicate 280 "a" ++ ".")%string /\
  Js.length (truncateToCompleteSentence Examples.periodAtLimit) = 281 /\
  truncateToCompleteSentence Examples.unbroken =
    (Js.replicate 299 "a" ++ "...")%string /\
  Js.length (truncateToCompleteSentence Examples.unbroken) = 302.
Proof. repeat split; vm_compute; reflexivity. Qed.

(** ** Special interactions of [post.ts] *)

Lemma firstWithin_is_key (random cum : Q)
    (entries : list (string * SpecialInteraction)) (type : string) :
  PostTs.firstWithin random cum entries = Some type ->
  In type (map fst entries).
Proof.
  revert cum. induction entries as [|[k i] entries IH]; intros cum; simpl.
  - discriminate.
  - destruct (Qltb random (cum + probability i)).
    + intros [= ->]. now left.
    + intros H. right. eapply IH, H.
Qed.

Lemma SPECIAL_INTERACTIONS_keys_truthy (type : string) :
  In type (map fst PostTs.SPECIAL_INTERACTIONS) -> truthy type = true.
Proof.
  simpl. intros [<-|[<-|[<-|[]]]]; reflexivity.
Qed.

(** C10. Whenever a call of [shouldGenerateSpecialInteraction] returns a
    type, the call that follows it returns [null] and clears the stored
    type, whatever its draw: no two consecutive calls both return a type. *)
Theorem no_special_interaction_back_to_back
    (lastInteractionType : option string) (random1 random2 : Q)
    (type : string) :
  (PostTs.shouldGenerateSpecialInteraction lastInteractionType random1).1
    = Some type ->
  PostTs.shouldGenerateSpecialInteraction
    (PostTs.shouldGenerateSpecialInteraction lastInteractionType random1).2
    random2
  = (None, None).
Proof.
  unfold PostTs.shouldGenerateSpecialInteraction at 1 3.
  destruct (PostTs.isSet lastInteractionType); [discriminate|].
  destruct (PostTs.firstWithin random1 0 PostTs.SPECIAL_INTERACTIONS)
    as [t|] eqn:E; simpl; [|discriminate].
  intros [= ->].
  unfold PostTs.shouldGenerateSpecialInteraction. simpl.
  rewrite (SPECIAL_INTERACTIONS_keys_truthy type); [reflexivity|].
  eapply firstWithin_is_key, E.
Qed.

Lemma no_special_interaction_back_to_back_witness :
  (PostTs.shouldGenerateSpecialInteraction None (1 # 10)).1 = Some "tate" /\
  PostTs.shouldGenerateSpecialInteraction
    (PostTs.shouldGenerateSpecialInteraction None (1 # 10)).2 (1 # 10)
  = (None, None).
Proof.
  split; [reflexivity|].
  apply (no_special_interaction_back_to_back None (1 # 10) (1 # 10) "tate").
  reflexivity.
Defined.

(** ** Rate limits *)

Lemma canReplyToUser_spec (c : Interactions.Client) (userId : string)
    (now : Z) :
  Interactions.canReplyToUser c userId now = true <->
  default 0 (Interactions.recentReplies c !! userId)
    < Interactions.maxRepliesPerUser (Interactions.limits c) /\
  now - default 0 (Interactions.lastReplyTime c !! userId)
    >= Interactions.minTimeBetweenReplies (Interactions.limits c).
Proof.
  unfold Interactions.canReplyToUser.
  rewrite andb_true_iff, Z.ltb_lt, Z.geb_le. lia.
Qed.

(** C8. [canReplyToUser] returns [true] exactly when the recorded reply
    count of the user is below [maxRepliesPerUser] and the time since the
    recorded last reply is at least [minTimeBetweenReplies], a missing entry
    counting as 0; a user without entries is therefore permitted exactly
    when [maxRepliesPerUser] is positive and the clock has reached
    [minTimeBetweenReplies]. *)
Theorem canReplyToUser_characterised (c : Interactions.Client)
    (userId : string) (now : Z) :
  (Interactions.canReplyToUser c userId now = true <->
   default 0 (Interactions.recentReplies c !! userId)
     < Interactions.maxRepliesPerUser (Interactions.limits c) /\
   now - default 0 (Interactions.lastReplyTime c !! userId)
     >= Interactions.minTimeBetweenReplies (Interactions.limits c)) /\
  (Interactions.recentReplies c !! userId = None ->
   Interactions.lastReplyTime c !! userId = None ->
   (Interactions.canReplyToUser c userId now = true <->
    0 < Interactions.maxRepliesPerUser (Interactions.limits c) /\
    Interactions.minTimeBetweenReplies (Interactions.limits c) <= now)).
Proof.
  split; [apply canReplyToUser_spec|].
  intros Hcount Hlast. rewrite canReplyToUser_spec, Hcount, Hlast. simpl. lia.
Qed.

Lemma canReplyToUser_characterised_witness :
  Interactions.recentReplies Examples.freshClient !! "u1" = None /\
  Interactions.lastReplyTime Examples.freshClient !! "u1" = None /\
  Interactions.canReplyToUser Examples.freshClient "u1" Examples.now0 = true.
Proof.
  split; [reflexivity|]. split; [reflexivity|].
  apply (proj2 (canReplyToUser_characterised Examples.freshClient "u1"
                  Examples.now0)); [reflexivity|reflexivity|].
  vm_compute. split; [reflexivity|discriminate].
Defined.

(** A user without any recorded entry is refused under the setting
    [MAX_REPLIES_PER_USER=-1]. *)
Lemma unrecorded_user_refused :
  Interactions.recentReplies Examples.unlimitedClient !! "u1" = None /\
  Interactions.lastReplyTime Examples.unlimitedClient !! "u1" = None /\
  Interactions.canReplyToUser Examples.unlimitedClient "u1" Examples.now0
    = false.
Proof. split; [reflexivity|]. split; reflexivity. Qed.

(** ** The polling batch *)

Section Batch.
Import Interactions.

Lemma handleCandidate_checkpoint (profileId : string) (c : Client)
    (cand : Candidate) :
  match (handleCandidate profileId c cand).2 with
  | Handled _ =>
      lastCheckedTweetId (handleCandidate profileId c cand).1
        = Some (id cand.1) /\
      isNew c cand.1 = true
  | SkippedByRateLimits | SkippedByProbability =>
      lastCheckedTweetId (handleCandidate profileId c cand).1
        = lastCheckedTweetId c /\
      isNew (handleCandidate profileId c cand).1 cand.1 = true
  | NotNew | Raised =>
      lastCheckedTweetId (handleCandidate profileId c cand).1
        = lastCheckedTweetId c
  end.
Proof.
  destruct cand as [tweet r]. unfold handleCandidate. simpl.
  destruct (isNew c tweet) eqn:Hnew; [|reflexivity].
  destruct (negb _ || negb _); [now split|].
  destruct (Qltb _ _); [now split|].
  destruct (negb (ensureConnection_ok r)); [reflexivity|].
  destruct (thread r); [|reflexivity].
  destruct (handleTweet _ _ _ _) as [[res|] entries]; [|reflexivity].
  simpl. now split.
Qed.

Local Arguments handleCandidate : simpl never.

Lemma handleCandidate_monotone (profileId : string) (c : Client)
    (cand : Candidate) (k : N) :
  lastCheckedTweetId c = Some k ->
  exists k', lastCheckedTweetId (handleCandidate profileId c cand).1 = Some k'
             /\ (k <= k')%N.
Proof.
  intros Hk. pose proof (handleCandidate_checkpoint profileId c cand) as H.
  destruct ((handleCandidate profileId c cand).2).
  - exists k. rewrite H. split; [assumption|lia].
  - exists k. destruct H as [-> _]. split; [assumption|lia].
  - exists k. destruct H as [-> _]. split; [assumption|lia].
  - destruct H as [-> Hnew]. exists (id cand.1). split; [reflexivity|].
    unfold isNew in Hnew. rewrite Hk in Hnew.
    apply orb_true_iff in Hnew as [H0|Hlt].
    + apply N.eqb_eq in H0. lia.
    + apply N.ltb_lt in Hlt. lia.
  - exists k. rewrite H. split; [assumption|lia].
Qed.

Lemma forEachCandidate_cons (profileId : string) (cand : Candidate)
    (cands : list Candidate) (c : Client) :
  forEachCandidate profileId (cand :: cands) c =
  if Observed.raised (handleCandidate profileId c cand).2 then
    ((handleCandidate profileId c cand).1,
     [(cand.1, (handleCandidate profileId c cand).2)], false)
  else
    let r := forEachCandidate profileId cands
               (handleCandidate profileId c cand).1 in
    (r.1.1, (cand.1, (handleCandidate profileId c cand).2) :: r.1.2, r.2).
Proof.
  simpl. destruct (handleCandidate profileId c cand) as [c1 o]. simpl.
  destruct o; simpl; try reflexivity;
    destruct (forEachCandidate profileId cands c1) as [[c2 os] fin];
    reflexivity.
Qed.

Lemma forEachCandidate_checkpoint (profileId : string)
    (cands : list Candidate) (c : Client) :
  lastCheckedTweetId (forEachCandidate profileId cands c).1.1 =
  Observed.checkpointAfter (forEachCandidate profileId cands c).1.2
    (lastCheckedTweetId c).
Proof.
  revert c. induction cands as [|cand cands IH]; intros c; [reflexivity|].
  rewrite forEachCandidate_cons.
  pose proof (handleCandidate_checkpoint profileId c cand) as H.
  destruct ((handleCandidate profileId c cand).2);
    destruct cand as [tweet r]; cbn [Observed.raised Observed.checkpointAfter fst snd];
    rewrite ?IH.
  - now rewrite H.
  - now rewrite (proj1 H).
  - now rewrite (proj1 H).
  - now rewrite (proj1 H).
  - exact H.
Qed.

Lemma forEachCandidate_greatest (profileId : string)
    (cands : list Candidate) (c : Client) :
  (forall k, lastCheckedTweetId c = Some k ->
     exists k', lastCheckedTweetId (forEachCandidate profileId cands c).1.1
                  = Some k' /\ (k <= k')%N) /\
  (forall tweet a,
     In (tweet, Handled a) (forEachCandidate profileId cands c).1.2 ->
     exists k', lastCheckedTweetId (forEachCandidate profileId cands c).1.1
                  = Some k' /\ (id tweet <= k')%N).
Proof.
  revert c. induction cands as [|cand cands IH]; intros c.
  - split; [|intros ? ? []]. intros k Hk. exists k. split; [assumption|lia].
  - rewrite forEachCandidate_cons.
    pose proof (handleCandidate_monotone profileId c cand) as Hmono.
    pose proof (handleCandidate_checkpoint profileId c cand) as Hstep.
    destruct (IH (handleCandidate profileId c cand).1) as [IHm IHg].
    destruct (Observed.raised _) eqn:Hr; simpl.
    + split; [exact Hmono|].
      intros tweet a [Heq|[]]. inversion Heq as [[Ht Ho]].
      rewrite Ho in Hr. discriminate.
    + split.
      * intros k Hk. destruct (Hmono k Hk) as (k1 & Hk1 & Hle).
        destruct (IHm k1 Hk1) as (k2 & Hk2 & Hle2).
        exists k2. split; [assumption|lia].
      * intros tweet a [Heq|Hin]; [|exact (IHg tweet a Hin)].
        inversion Heq as [[Ht Ho]]. rewrite Ho in Hstep.
        destruct Hstep as [Hc _]. rewrite Ht in Hc.
        destruct (IHm _ Hc) as (k2 & Hk2 & Hle2).
        exists k2. rewrite Ht. exact (conj Hk2 Hle2).
Qed.

Lemma handleTwitterInteractions_lastChecked (profileId : string)
    (fetched : Completion (list Candidate)) (c : Client) :
  lastCheckedTweetId (handleTwitterInteractions profileId fetched c).1 =
  match fetched with
  | Threw => lastCheckedTweetId c
  | Returned tweetCandidates =>
      lastCheckedTweetId
        (forEachCandidate profileId
           (uniqueTweetCandidates profileId tweetCandidates)
           (logged [(LOG, "Checking Twitter interactions")] c)).1.1
  end.
Proof.
  unfold handleTwitterInteractions. destruct fetched as [cands|]; [|reflexivity].
  destruct (forEachCandidate _ _ _) as [[c1 os] fin]. simpl.
  destruct fin; reflexivity.
Qed.

Lemma handleTwitterInteractions_outcomes (profileId : string)
    (fetched : Completion (list Candidate)) (c : Client) :
  (handleTwitterInteractions profileId fetched c).2 =
  match fetched with
  | Threw => []
  | Returned tweetCandidates =>
      (forEachCandidate profileId
         (uniqueTweetCandidates profileId tweetCandidates)
         (logged [(LOG, "Checking Twitter interactions")] c)).1.2
  end.
Proof.
  unfold handleTwitterInteractions. destruct fetched as [cands|]; [|reflexivity].
  destruct (forEachCandidate _ _ _) as [[c1 os] fin]. simpl.
  destruct fin; reflexivity.
Qed.

(** C1. The checkpoint moves to a candidate's id exactly when the handling
    of that candidate returns, whatever action it returns; a candidate
    skipped by the rate limits or by the probability draw leaves the
    checkpoint where it was and is still new to the client afterwards.
    After a batch the checkpoint is therefore the id of the last candidate
    whose handling returned (or the checkpoint from before), and no handled
    candidate of the batch has a greater id. *)
Theorem checkpoint_follows_handled (profileId : string) (c : Client) :
  (forall cand,
     match (handleCandidate profileId c cand).2 with
     | Handled _ =>
         lastCheckedTweetId (handleCandidate profileId c cand).1
           = Some (id cand.1)
     | SkippedByRateLimits | SkippedByProbability =>
         lastCheckedTweetId (handleCandidate profileId c cand).1
           = lastCheckedTweetId c /\
         isNew (handleCandidate profileId c cand).1 cand.1 = true
     | NotNew | Raised =>
         lastCheckedTweetId (handleCandidate profileId c cand).1
           = lastCheckedTweetId c
     end) /\
  (forall fetched,
     lastCheckedTweetId (handleTwitterInteractions profileId fetched c).1 =
     Observed.checkpointAfter
       (handleTwitterInteractions profileId fetched c).2
       (lastCheckedTweetId c)) /\
  (forall fetched tweet a,
     In (tweet, Handled a) (handleTwitterInteractions profileId fetched c).2 ->
     exists k,
       lastCheckedTweetId (handleTwitterInteractions profileId fetched c).1
         = Some k /\ (id tweet <= k)%N).
Proof.
  split; [|split].
  - intros cand. pose proof (handleCandidate_checkpoint profileId c cand) as H.
    destruct ((handleCandidate profileId c cand).2); try exact H.
    exact (proj1 H).
  - intros fetched.
    rewrite handleTwitterInteractions_lastChecked,
      handleTwitterInteractions_outcomes.
    destruct fetched as [cands|]; [|reflexivity].
    rewrite forEachCandidate_checkpoint. reflexivity.
  - intros fetched tweet a.
    rewrite handleTwitterInteractions_lastChecked,
      handleTwitterInteractions_outcomes.
    destruct fetched as [cands|]; [|intros []].
    apply (forEachCandidate_greatest profileId _
             (logged [(LOG, "Checking Twitter interactions")] c)).
Qed.

Lemma checkpoint_follows_handled_witness :
  In (Examples.tweetA, Handled (Some IGNORE))
    (handleTwitterInteractions "willy" Examples.skippingPoll
       Examples.freshClient).2 /\
  exists k,
    lastCheckedTweetId
      (handleTwitterInteractions "willy" Examples.skippingPoll
         Examples.freshClient).1 = Some k /\
    (id Examples.tweetA <= k)%N.
Proof.
  assert (Hin : In (Examples.tweetA, Handled (Some IGNORE))
                  (handleTwitterInteractions "willy" Examples.skippingPoll
                     Examples.freshClient).2)
    by (vm_compute; left; reflexivity).
  split; [exact Hin|].
  exact (proj2 (proj2 (checkpoint_follows_handled "willy" Examples.freshClient))
           Examples.skippingPoll Examples.tweetA (Some IGNORE) Hin).
Defined.

(** A batch whose last candidate is skipped by the probability draw leaves
    the checkpoint at the id of the candidate before it, below the greatest
    id of the batch, and the next poll considers the skipped candidate
    again. *)
Lemma checkpoint_behind_skipped_candidate :
  (handleTwitterInteractions "willy" Examples.skippingPoll
     Examples.freshClient).2
  = [(Examples.tweetA, Handled (Some IGNORE));
     (Examples.tweetB, SkippedByProbability)] /\
  lastCheckedTweetId
    (handleTwitterInteractions "willy" Examples.skippingPoll
       Examples.freshClient).1 = Some 100%N /\
  id Examples.tweetB = 200%N /\
  (handleTwitterInteractions "willy" Examples.secondPoll
     (handleTwitterInteractions "willy" Examples.skippingPoll
        Examples.freshClient).1).2
  = [(Examples.tweetB, Handled (Some RESPOND))].
Proof. repeat split; vm_compute; reflexivity. Qed.

Lemma handleCandidate_tracking (profileId : string) (c : Client)
    (cand : Candidate) :
  Observed.tracking (handleCandidate profileId c cand).1 =
  if Observed.responded (handleCandidate profileId c cand).2
  then Observed.tracking
         (updateInteractionTracking c (userId cand.1) (conversationId cand.1)
            (trackingClock cand.2))
  else Observed.tracking c.
Proof.
  destruct cand as [tweet r]. unfold handleCandidate. simpl.
  destruct (isNew c tweet); [|reflexivity].
  destruct (negb _ || negb _); [reflexivity|].
  destruct (Qltb _ _); [reflexivity|].
  destruct (negb (ensureConnection_ok r)); [reflexivity|].
  destruct (thread r); [|reflexivity].
  destruct (handleTweet _ _ _ _) as [[res|] entries]; [|reflexivity].
  simpl. destruct (action res) as [[| | |]|]; reflexivity.
Qed.

Lemma responses_cons (sel : Tweet -> bool) (tweet : Tweet) (o : Outcome)
    (outcomes : list (Tweet * Outcome)) :
  Observed.responses sel ((tweet, o) :: outcomes) =
  (if Observed.responded o && sel tweet then 1 else 0)
  + Observed.responses sel outcomes.
Proof.
  unfold Observed.responses. simpl.
  destruct (Observed.responded o && sel tweet); simpl; lia.
Qed.

Lemma handleCandidate_counts (profileId : string) (c : Client)
    (cand : Candidate) (u conv : string) :
  default 0 (recentReplies (handleCandidate profileId c cand).1 !! u) =
    default 0 (recentReplies c !! u)
    + Observed.responses (Observed.byUser u)
        [(cand.1, (handleCandidate profileId c cand).2)] /\
  default 0 (threadReplies (handleCandidate profileId c cand).1 !! conv) =
    default 0 (threadReplies c !! conv)
    + Observed.responses (Observed.inThread conv)
        [(cand.1, (handleCandidate profileId c cand).2)].
Proof.
  pose proof (handleCandidate_tracking profileId c cand) as H.
  unfold Observed.tracking in H. rewrite !responses_cons.
  unfold Observed.responses, Observed.byUser, Observed.inThread. simpl.
  destruct (Observed.responded _); simpl in *.
  - injection H as -> -> _. split.
    + destruct (String.eqb_spec (userId cand.1) u) as [->|Hne].
      * rewrite lookup_insert_eq. simpl. lia.
      * rewrite lookup_insert_ne by assumption. lia.
    + destruct (String.eqb_spec (conversationId cand.1) conv) as [->|Hne].
      * rewrite lookup_insert_eq. simpl. lia.
      * rewrite lookup_insert_ne by assumption. lia.
  - injection H as -> -> _. split; lia.
Qed.

Lemma forEachCandidate_counts (profileId : string) (cands : list Candidate)
    (c : Client) (u conv : string) :
  default 0 (recentReplies (forEachCandidate profileId cands c).1.1 !! u) =
    default 0 (recentReplies c !! u)
    + Observed.responses (Observed.byUser u)
        (forEachCandidate profileId cands c).1.2 /\
  default 0 (threadReplies (forEachCandidate profileId cands c).1.1 !! conv) =
    default 0 (threadReplies c !! conv)
    + Observed.responses (Observed.inThread conv)
        (forEachCandidate profileId cands c).1.2.
Proof.
  revert c. induction cands as [|cand cands IH]; intros c.
  - unfold Observed.responses. simpl. split; lia.
  - rewrite forEachCandidate_cons.
    destruct (handleCandidate_counts profileId c cand u conv) as [Hu Hc].
    rewrite !responses_cons in Hu, Hc.
    destruct (Observed.raised _); cbn [fst snd].
    + rewrite !responses_cons. split; assumption.
    + destruct (IH (handleCandidate profileId c cand).1) as [IHu IHc].
      rewrite !responses_cons, IHu, IHc, Hu, Hc.
      unfold Observed.responses. simpl. split; lia.
Qed.

Lemma forEachCandidate_tracking_kept (profileId : string)
    (cands : list Candidate) (c : Client) :
  forallb (fun to => negb (Observed.responded to.2))
    (forEachCandidate profileId cands c).1.2 = true ->
  Observed.tracking (forEachCandidate profileId cands c).1.1
    = Observed.tracking c.
Proof.
  revert c. induction cands as [|cand cands IH]; intros c; [reflexivity|].
  rewrite forEachCandidate_cons.
  pose proof (handleCandidate_tracking profileId c cand) as H.
  destruct (Observed.raised _); cbn [fst snd forallb];
    rewrite andb_true_iff, negb_true_iff; intros [Hr Hrest];
    rewrite Hr in H.
  - exact H.
  - cbn zeta. cbn [fst]. rewrite (IH _ Hrest). exact H.
Qed.

Lemma handleTwitterInteractions_tracking (profileId : string)
    (fetched : Completion (list Candidate)) (c : Client) :
  Observed.tracking (handleTwitterInteractions profileId fetched c).1 =
  match fetched with
  | Threw => Observed.tracking c
  | Returned tweetCandidates =>
      Observed.tracking
        (forEachCandidate profileId
           (uniqueTweetCandidates profileId tweetCandidates)
           (logged [(LOG, "Checking Twitter interactions")] c)).1.1
  end.
Proof.
  unfold handleTwitterInteractions. destruct fetched as [cands|]; [|reflexivity].
  destruct (forEachCandidate _ _ _) as [[c1 os] fin]. simpl.
  destruct fin; reflexivity.
Qed.

(** C6. The rate-limit maps change only where the handling of a candidate
    returns [RESPOND], and there by exactly one call of
    [updateInteractionTracking]: a candidate that is not new, is skipped by
    the rate limits or by the probability draw, ends in [IGNORE], [STOP],
    [ERROR] or no action, or throws, leaves the three maps as they were.
    Over a batch, the reply count of every user and of every thread grows by
    the number of [RESPOND] outcomes for that user or thread, and a batch
    without a [RESPOND] outcome leaves the maps unchanged. *)
Theorem tracking_updated_once_per_respond (profileId : string) (c : Client) :
  (forall cand,
     Observed.tracking (handleCandidate profileId c cand).1 =
     if Observed.responded (handleCandidate profileId c cand).2
     then Observed.tracking
            (updateInteractionTracking c (userId cand.1)
               (conversationId cand.1) (trackingClock cand.2))
     else Observed.tracking c) /\
  (forall fetched u,
     default 0
       (recentReplies (handleTwitterInteractions profileId fetched c).1 !! u)
     = default 0 (recentReplies c !! u)
       + Observed.responses (Observed.byUser u)
           (handleTwitterInteractions profileId fetched c).2) /\
  (forall fetched conv,
     default 0
       (threadReplies (handleTwitterInteractions profileId fetched c).1
          !! conv)
     = default 0 (threadReplies c !! conv)
       + Observed.responses (Observed.inThread conv)
           (handleTwitterInteractions profileId fetched c).2) /\
  (forall fetched,
     forallb (fun to => negb (Observed.responded to.2))
       (handleTwitterInteractions profileId fetched c).2 = true ->
     Observed.tracking (handleTwitterInteractions profileId fetched c).1
       = Observed.tracking c).
Proof.
  split; [|split; [|split]].
  - apply handleCandidate_tracking.
  - intros fetched u.
    change (recentReplies (handleTwitterInteractions profileId fetched c).1)
      with (Observed.tracking
              (handleTwitterInteractions profileId fetched c).1).1.1.
    rewrite handleTwitterInteractions_tracking,
      handleTwitterInteractions_outcomes.
    destruct fetched as [cands|]; [|unfold Observed.responses; simpl; lia].
    apply (forEachCandidate_counts profileId _
             (logged [(LOG, "Checking Twitter interactions")] c) u "").
  - intros fetched conv.
    change (threadReplies (handleTwitterInteractions profileId fetched c).1)
      with (Observed.tracking
              (handleTwitterInteractions profileId fetched c).1).1.2.
    rewrite handleTwitterInteractions_tracking,
      handleTwitterInteractions_outcomes.
    destruct fetched as [cands|]; [|unfold Observed.responses; simpl; lia].
    apply (forEachCandidate_counts profileId _
             (logged [(LOG, "Checking Twitter interactions")] c) "" conv).
  - intros fetched.
    rewrite handleTwitterInteractions_tracking,
      handleTwitterInteractions_outcomes.
    destruct fetched as [cands|]; [|reflexivity].
    apply (forEachCandidate_tracking_kept profileId _
             (logged [(LOG, "Checking Twitter interactions")] c)).
Qed.

Lemma tracking_updated_once_per_respond_witness :
  forallb (fun to => negb (Observed.responded to.2))
    (handleTwitterInteractions "willy" Examples.skippingPoll
       Examples.freshClient).2 = true /\
  Observed.tracking
    (handleTwitterInteractions "willy" Examples.skippingPoll
       Examples.freshClient).1
  = Observed.tracking Examples.freshClient.
Proof.
  assert (H : forallb (fun to => negb (Observed.responded to.2))
                (handleTwitterInteractions "willy" Examples.skippingPoll
                   Examples.freshClient).2 = true)
    by (vm_compute; reflexivity).
  split; [exact H|].
  exact (proj2 (proj2 (proj2
           (tracking_updated_once_per_respond "willy" Examples.freshClient)))
           Examples.skippingPoll H).
Defined.

Example respond_is_recorded_once :
  Observed.tracking
    (handleTwitterInteractions "willy" Examples.secondPoll
       Examples.freshClient).1
  = ({["u2" := 1]}, {["c2" := 1]}, {["u2" := Examples.now0 + 5]}).
Proof. vm_compute. reflexivity. Qed.

Lemma handleTweet_send_failure (profileId : string) (tweet : Tweet)
    (messageText : string) (h : HandleReadings) :
  (handleTweet profileId tweet messageText
     (Observed.withResponseSent false h)).1 =
  match (handleTweet profileId tweet messageText
           (Observed.withResponseSent true h)).1 with
  | Returned res =>
      match action res with
      | Some RESPOND => Returned (mkHandleResult "" (Some ERROR))
      | _ => Returned res
      end
  | Threw => Threw
  end.
Proof.
  unfold handleTweet, Observed.withResponseSent. simpl.
  destruct (String.eqb (userId tweet) profileId); [reflexivity|].
  destruct (negb (truthy messageText)); [reflexivity|].
  destruct (negb (homeTimeline_ok h)); [reflexivity|].
  destruct (tweetExists h); [|reflexivity].
  destruct (shouldRespond h) as [[| | |]|]; try reflexivity.
  destruct (responseText h) as [text|]; [|reflexivity].
  destruct (truthy text); reflexivity.
Qed.

Lemma handleCandidate_cached (profileId : string) (c : Client)
    (cand : Candidate) :
  cachedCheckedTweetId (handleCandidate profileId c cand).1
    = cachedCheckedTweetId c.
Proof.
  destruct cand as [tweet r]. unfold handleCandidate. simpl.
  destruct (isNew c tweet); [|reflexivity].
  destruct (negb _ || negb _); [reflexivity|].
  destruct (Qltb _ _); [reflexivity|].
  destruct (negb (ensureConnection_ok r)); [reflexivity|].
  destruct (thread r); [|reflexivity].
  destruct (handleTweet _ _ _ _) as [[res|] entries]; [|reflexivity].
  simpl. destruct (action res) as [[| | |]|]; reflexivity.
Qed.

Lemma forEachCandidate_cached (profileId : string) (cands : list Candidate)
    (c : Client) :
  cachedCheckedTweetId (forEachCandidate profileId cands c).1.1
    = cachedCheckedTweetId c.
Proof.
  revert c. induction cands as [|cand cands IH]; intros c; [reflexivity|].
  rewrite forEachCandidate_cons.
  destruct (Observed.raised _); cbn [fst snd].
  - apply handleCandidate_cached.
  - cbn zeta. cbn [fst]. rewrite IH. apply handleCandidate_cached.
Qed.

(** The outcomes of the loop cover a prefix of the candidates; the loop ends
    either after the last candidate, without any [Raised], or at the first
    candidate whose handling throws. *)
Lemma forEachCandidate_shape (profileId : string) (cands : list Candidate)
    (c : Client) :
  (forEachCandidate profileId cands c).1.2.*1
    = take (List.length (forEachCandidate profileId cands c).1.2) cands.*1 /\
  (forEachCandidate profileId cands c).2
    = negb (Observed.interrupted (forEachCandidate profileId cands c).1.2) /\
  if (forEachCandidate profileId cands c).2
  then List.length (forEachCandidate profileId cands c).1.2
       = List.length cands
  else exists before tweet,
         (forEachCandidate profileId cands c).1.2
           = (before ++ [(tweet, Raised)])%list /\
         Observed.interrupted before = false.
Proof.
  revert c. induction cands as [|cand cands IH]; intros c.
  - repeat split.
  - rewrite forEachCandidate_cons.
    destruct (Observed.raised (handleCandidate profileId c cand).2) eqn:Hr.
    + cbn [fst snd]. split; [reflexivity|]. split.
      * unfold Observed.interrupted. simpl. now rewrite Hr.
      * exists [], cand.1. split; [|reflexivity].
        destruct ((handleCandidate profileId c cand).2); try discriminate.
        reflexivity.
    + destruct (IH (handleCandidate profileId c cand).1) as (IHp & IHf & IHs).
      cbn zeta. cbn [fst snd]. split; [|split].
      * simpl. f_equal. exact IHp.
      * unfold Observed.interrupted in *. simpl. rewrite Hr. exact IHf.
      * destruct ((forEachCandidate profileId cands
                     (handleCandidate profileId c cand).1).2).
        -- simpl. f_equal. exact IHs.
        -- destruct IHs as (before & tweet & -> & Hb).
           exists ((cand.1, (handleCandidate profileId c cand).2) :: before),
             tweet.
           split; [reflexivity|].
           unfold Observed.interrupted in *. simpl. rewrite Hr. exact Hb.
Qed.

Lemma handleTwitterInteractionsLoop_length (profileId : string)
    (polls : list (Completion (list Candidate))) (c : Client) :
  List.length (handleTwitterInteractionsLoop profileId polls c).2
    = List.length polls.
Proof.
  revert c. induction polls as [|fetched polls IH]; intros c; [reflexivity|].
  simpl. destruct (handleTwitterInteractions profileId fetched c) as [c1 os].
  specialize (IH c1).
  destruct (handleTwitterInteractionsLoop profileId polls c1) as [c2 rest].
  simpl in *. now rewrite IH.
Qed.

(** C5. An error thrown by the block of [handleTweet] that sends the
    response is caught there: the handling returns [ERROR] where it would
    have returned [RESPOND], and the loop goes on.  Any other error thrown
    while a candidate is handled leaves the loop: it is caught by the
    handler around the whole batch and logged, the candidates after the
    throwing one get no outcome in that batch, and the checkpoint is not
    persisted.  [handleTwitterInteractions] itself always returns, and the
    polling loop runs every poll. *)
Theorem errors_end_the_batch_not_the_loop (profileId : string) (c : Client) :
  (forall tweet messageText h,
     (handleTweet profileId tweet messageText
        (Observed.withResponseSent false h)).1 =
     match (handleTweet profileId tweet messageText
              (Observed.withResponseSent true h)).1 with
     | Returned res =>
         match action res with
         | Some RESPOND => Returned (mkHandleResult "" (Some ERROR))
         | _ => Returned res
         end
     | Threw => Threw
     end) /\
  (forall tweetCandidates,
     (handleTwitterInteractions profileId (Returned tweetCandidates) c).2.*1
     = take
         (List.length
            (handleTwitterInteractions profileId (Returned tweetCandidates)
               c).2)
         (uniqueTweetCandidates profileId tweetCandidates).*1 /\
     if Observed.interrupted
          (handleTwitterInteractions profileId (Returned tweetCandidates) c).2
     then
       (exists before tweet,
          (handleTwitterInteractions profileId (Returned tweetCandidates) c).2
            = (before ++ [(tweet, Raised)])%list /\
          Observed.interrupted before = false) /\
       cachedCheckedTweetId
         (handleTwitterInteractions profileId (Returned tweetCandidates) c).1
         = cachedCheckedTweetId c /\
       last (log (handleTwitterInteractions profileId
                    (Returned tweetCandidates) c).1)
         = Some (ERROR_LEVEL, "Error handling Twitter interactions:")
     else
       List.length
         (handleTwitterInteractions profileId (Returned tweetCandidates) c).2
         = List.length (uniqueTweetCandidates profileId tweetCandidates) /\
       cachedCheckedTweetId
         (handleTwitterInteractions profileId (Returned tweetCandidates) c).1
         = lastCheckedTweetId
             (handleTwitterInteractions profileId (Returned tweetCandidates)
                c).1 /\
       last (log (handleTwitterInteractions profileId
                    (Returned tweetCandidates) c).1)
         = Some (LOG, "Finished checking Twitter interactions")) /\
  (forall polls,
     List.length (handleTwitterInteractionsLoop profileId polls c).2
       = List.length polls).
Proof.
  split; [|split].
  - apply handleTweet_send_failure.
  - intros tweetCandidates. unfold handleTwitterInteractions.
    pose proof (forEachCandidate_shape profileId
                  (uniqueTweetCandidates profileId tweetCandidates)
                  (logged [(LOG, "Checking Twitter interactions")] c))
      as (Hp & Hf & Hs).
    pose proof (forEachCandidate_cached profileId
                  (uniqueTweetCandidates profileId tweetCandidates)
                  (logged [(LOG, "Checking Twitter interactions")] c)) as Hc.
    destruct (forEachCandidate _ _ _) as [[c1 os] fin].
    cbn [fst snd] in *. subst fin.
    destruct (Observed.interrupted os) eqn:Hi; cbn [negb] in *;
      cbn [fst snd]; rewrite Hi.
    + split; [exact Hp|]. split; [exact Hs|]. split; [exact Hc|].
      apply last_snoc.
    + split; [exact Hp|]. split; [exact Hs|]. split; [reflexivity|].
      apply last_snoc.
  - intros polls. apply handleTwitterInteractionsLoop_length.
Qed.

(** The handling of the first candidate throws: the second candidate, which
    would have been answered had it been fetched alone, gets no outcome,
    the error is logged and the checkpoint is not persisted. *)
Lemma throw_abandons_remaining_candidates :
  (handleTwitterInteractions "willy" Examples.throwingPoll
     Examples.freshClient).2
  = [(Examples.tweetA, Raised)] /\
  (handleTwitterInteractions "willy" Examples.secondPoll
     Examples.freshClient).2
  = [(Examples.tweetB, Handled (Some RESPOND))] /\
  last (log (handleTwitterInteractions "willy" Examples.throwingPoll
               Examples.freshClient).1)
  = Some (ERROR_LEVEL, "Error handling Twitter interactions:").
Proof. repeat split; vm_compute; reflexivity. Qed.

End Batch.

(** ** Special interactions and their cooldown *)

Section Cooldown.
Import PostClient.

Lemma truthy_with_space (a b : string) : truthy (a ++ " " ++ b) = true.
Proof. destruct a; reflexivity. Qed.

Lemma generateSpecialTweet_cases (c : Client) (type : string)
    (pickTemplate pickTopic : nat) (now : Z) :
  (exists text,
     truthy text = true /\
     generateSpecialTweet c type pickTemplate pickTopic now
       = (Some (mkPostResponse text true (Some type)), stamped type now c)) \/
  generateSpecialTweet c type pickTemplate pickTopic now = (None, c).
Proof.
  unfold generateSpecialTweet.
  destruct (specialInteractions c !! type) as [i|]; [|now right].
  destruct (sample pickTemplate (templates i)) as [template|]; [|now right].
  destruct (sample pickTopic (topics i)) as [topic|]; [|now right].
  destruct (truthy template && truthy topic); [|now right].
  left. eexists. split; [apply truthy_with_space|reflexivity].
Qed.

(** A selection call either fires a special interaction of some type, which
    passed [shouldTriggerSpecialInteraction] and is stamped, or it takes the
    generated-post branch and leaves the client as it was. *)
Lemma trySpecialTweet_cases (c : Client) (r : Readings) :
  (exists type text,
     shouldTriggerSpecialInteraction c type (checkClock r) (draw r) = true /\
     truthy text = true /\
     trySpecialTweet c r
       = (Some (mkPostResponse text true (Some type)),
          stamped type (stampClock r) c)) \/
  trySpecialTweet c r = (None, c).
Proof.
  unfold trySpecialTweet.
  destruct (sample (pickType r) (map_to_list (specialInteractions c)).*1)
    as [randomType|]; [|now right].
  destruct (truthy randomType); simpl; [|now right].
  destruct (shouldTriggerSpecialInteraction c randomType (checkClock r)
              (draw r)) eqn:Hs; [|now right].
  destruct (generateSpecialTweet_cases c randomType (pickTemplate r)
              (pickTopic r) (stampClock r)) as [(text & Htext & ->)| ->].
  - left. exists randomType, text. repeat split; assumption.
  - now right.
Qed.

Lemma generateTweetContent_cases (c : Client) (w : World) (r : Readings) :
  (exists type text,
     shouldTriggerSpecialInteraction c type (checkClock r) (draw r) = true /\
     truthy text = true /\
     generateTweetContent c w r
       = (Returned (mkPostResponse text true (Some type)),
          stamped type (stampClock r) c, w)) \/
  (generateTweetContent c w r
     = ((generateNormalTweet w r).1, c, (generateNormalTweet w r).2)).
Proof.
  unfold generateTweetContent.
  destruct (trySpecialTweet_cases c r) as [(type & text & Hs & Ht & ->)| ->].
  - left. exists type, text. repeat split; assumption.
  - right. now destruct (generateNormalTweet w r).
Qed.

Lemma generateNormalTweet_not_special (w : World) (r : Readings)
    (type : string) :
  triggers type (generateNormalTweet w r).1 = false.
Proof.
  unfold generateNormalTweet.
  destruct (cachedTimeline w); [|destruct (fetchedTimeline r)];
    try reflexivity; destruct (generatedText r); reflexivity.
Qed.

Lemma on_cooldown_no_trigger (c : Client) (type : string) (t0 now : Z)
    (random : Q) :
  lastSpecialInteraction c !! type = Some t0 ->
  now < t0 + specialInteractionCooldown c ->
  shouldTriggerSpecialInteraction c type now random = false.
Proof.
  intros Hlast Hnow. unfold shouldTriggerSpecialInteraction.
  rewrite Hlast. simpl.
  destruct (specialInteractions c !! type); [|reflexivity].
  destruct (now - t0 <? specialInteractionCooldown c) eqn:E; [reflexivity|].
  apply Z.ltb_ge in E. lia.
Qed.

(** A selection call made while [type] is on cooldown does not fire [type]
    and keeps its stamp and the cooldown window. *)
Lemma generateTweetContent_on_cooldown (c : Client) (w : World) (r : Readings)
    (type : string) (t0 : Z) :
  lastSpecialInteraction c !! type = Some t0 ->
  checkClock r < t0 + specialInteractionCooldown c ->
  triggers type (generateTweetContent c w r).1.1 = false /\
  lastSpecialInteraction (generateTweetContent c w r).1.2 !! type = Some t0 /\
  specialInteractionCooldown (generateTweetContent c w r).1.2
    = specialInteractionCooldown c.
Proof.
  intros Hlast Hnow.
  destruct (generateTweetContent_cases c w r)
    as [(other & text & Hfire & _ & ->)| ->]; cbn [fst snd].
  - destruct (decide (other = type)) as [->|Hne].
    + rewrite (on_cooldown_no_trigger c type t0 _ _ Hlast Hnow) in Hfire.
      discriminate.
    + split; [|split; [|reflexivity]].
      * simpl. apply bool_decide_eq_false. congruence.
      * simpl. now rewrite lookup_insert_ne.
  - split; [apply generateNormalTweet_not_special|]. now split.
Qed.

Lemma selectionCalls_cons (r : Readings) (calls : list Readings) (c : Client)
    (w : World) :
  selectionCalls (r :: calls) c w =
  ((generateTweetContent c w r).1.1
     :: (selectionCalls calls (generateTweetContent c w r).1.2
           (generateTweetContent c w r).2).1.1,
   (selectionCalls calls (generateTweetContent c w r).1.2
      (generateTweetContent c w r).2).1.2,
   (selectionCalls calls (generateTweetContent c w r).1.2
      (generateTweetContent c w r).2).2).
Proof.
  simpl. destruct (generateTweetContent c w r) as [[res c1] w1]. simpl.
  destruct (selectionCalls calls c1 w1) as [[rest c2] w2]. reflexivity.
Qed.

Lemma selectionCalls_on_cooldown (calls : list Readings) (c : Client)
    (w : World) (type : string) (t0 : Z) :
  lastSpecialInteraction c !! type = Some t0 ->
  Forall (fun r => checkClock r < t0 + specialInteractionCooldown c) calls ->
  Forall (fun res => triggers type res = false) (selectionCalls calls c w).1.1
  /\ lastSpecialInteraction (selectionCalls calls c w).1.2 !! type = Some t0.
Proof.
  revert c w. induction calls as [|r calls IH]; intros c w Hlast Hall.
  - split; [constructor|exact Hlast].
  - rewrite selectionCalls_cons. cbn [fst snd].
    inversion Hall as [|? ? Hr Hrest]; subst.
    destruct (generateTweetContent_on_cooldown c w r type t0 Hlast Hr)
      as (Hno & Hkeep & Hcool).
    destruct (IH (generateTweetContent c w r).1.2 (generateTweetContent c w r).2
                Hkeep) as [IH1 IH2].
    { now rewrite Hcool. }
    split; [constructor; assumption|assumption].
Qed.

(** C3. Once a selection call has fired the special interaction [type],
    stamping it with the clock reading [stampClock first], none of the
    selection calls that follow at clock readings strictly before that stamp
    plus the cooldown fires [type] again, whatever their draws; the stamp
    stays in place throughout. *)
Theorem cooldown_blocks_retrigger (c : Client) (w : World) (first : Readings)
    (calls : list Readings) (type : string) :
  triggers type (generateTweetContent c w first).1.1 = true ->
  Forall (fun r => checkClock r
                   < stampClock first + specialInteractionCooldown c) calls ->
  lastSpecialInteraction (generateTweetContent c w first).1.2 !! type
    = Some (stampClock first) /\
  Forall (fun res => triggers type res = false)
    (selectionCalls calls (generateTweetContent c w first).1.2
       (generateTweetContent c w first).2).1.1 /\
  lastSpecialInteraction
    (selectionCalls calls (generateTweetContent c w first).1.2
       (generateTweetContent c w first).2).1.2 !! type
    = Some (stampClock first).
Proof.
  intros Hfire Hall.
  destruct (generateTweetContent_cases c w first)
    as [(fired & text & _ & _ & Heq)|Heq]; rewrite Heq in *;
    cbn [fst snd] in *.
  - simpl in Hfire. apply bool_decide_eq_true in Hfire.
    injection Hfire as ->.
    assert (Hstamp : lastSpecialInteraction (stamped type (stampClock first) c)
                       !! type = Some (stampClock first))
      by apply lookup_insert_eq.
    split; [exact Hstamp|].
    apply selectionCalls_on_cooldown; assumption.
  - rewrite generateNormalTweet_not_special in Hfire. discriminate.
Qed.

Lemma cooldown_blocks_retrigger_witness :
  triggers "tate"
    (generateTweetContent Examples.tateClient Examples.emptyWorld
       Examples.firstRun).1.1 = true /\
  Forall (fun res => triggers "tate" res = false)
    (selectionCalls [Examples.laterRun]
       (generateTweetContent Examples.tateClient Examples.emptyWorld
          Examples.firstRun).1.2
       (generateTweetContent Examples.tateClient Examples.emptyWorld
          Examples.firstRun).2).1.1.
Proof.
  assert (Hfire : triggers "tate"
                    (generateTweetContent Examples.tateClient
                       Examples.emptyWorld Examples.firstRun).1.1 = true)
    by (vm_compute; reflexivity).
  assert (Hall : Forall (fun r => checkClock r
                                  < stampClock Examples.firstRun
                                    + specialInteractionCooldown
                                        Examples.tateClient)
                   [Examples.laterRun])
    by (constructor; [vm_compute; reflexivity|constructor]).
  split; [exact Hfire|].
  exact (proj1 (proj2 (cooldown_blocks_retrigger Examples.tateClient
                         Examples.emptyWorld Examples.firstRun
                         [Examples.laterRun] "tate" Hfire Hall))).
Defined.

Example tate_fires_then_waits :
  (selectionCalls [Examples.firstRun; Examples.laterRun] Examples.tateClient
     Examples.emptyWorld).1.1
  = [Returned
       (mkPostResponse
          "@Cobratate Paper hands never make generational wealth... just saying"
          true (Some "tate"));
     Returned (mkPostResponse "gm frens." false None)].
Proof. vm_compute. reflexivity. Qed.

Lemma generateSpecialTweet_withPosting (b : bool) (c : Client)
    (type : string) (pickTemplate pickTopic : nat) (now : Z) :
  generateSpecialTweet (withPosting b c) type pickTemplate pickTopic now =
  ((generateSpecialTweet c type pickTemplate pickTopic now).1,
   withPosting b (generateSpecialTweet c type pickTemplate pickTopic now).2).
Proof.
  unfold generateSpecialTweet. simpl.
  destruct (specialInteractions c !! type) as [i|]; [|reflexivity].
  destruct (sample pickTemplate (templates i)); [|reflexivity].
  destruct (sample pickTopic (topics i)); [|reflexivity].
  destruct (truthy _ && truthy _); reflexivity.
Qed.

Lemma trySpecialTweet_withPosting (b : bool) (c : Client) (r : Readings) :
  trySpecialTweet (withPosting b c) r =
  ((trySpecialTweet c r).1, withPosting b (trySpecialTweet c r).2).
Proof.
  unfold trySpecialTweet. simpl.
  destruct (sample (pickType r) (map_to_list (specialInteractions c)).*1)
    as [randomType|]; [|reflexivity].
  change (shouldTriggerSpecialInteraction (withPosting b c) randomType
            (checkClock r) (draw r))
    with (shouldTriggerSpecialInteraction c randomType (checkClock r)
            (draw r)).
  destruct (truthy randomType && _); [|reflexivity].
  apply generateSpecialTweet_withPosting.
Qed.

Lemma triggers_special (c : Client) (w : World) (r : Readings)
    (type : string) :
  triggers type (generateTweetContent c w r).1.1 = true ->
  exists text,
    truthy text = true /\
    trySpecialTweet c r
      = (Some (mkPostResponse text true (Some type)),
         stamped type (stampClock r) c).
Proof.
  unfold generateTweetContent.
  destruct (trySpecialTweet_cases c r) as [(fired & text & _ & Ht & ->)| ->].
  - simpl. intros H. apply bool_decide_eq_true in H. injection H as ->.
    now exists text.
  - pose proof (generateNormalTweet_not_special w r type) as Hn.
    destruct (generateNormalTweet w r) as [res w1]. simpl in *.
    rewrite Hn. discriminate.
Qed.

(** C9. The stamp of a special interaction is set while the content is
    generated, before anything is handed to [sendTweet].  So when a run of
    [generateNewTweet] selects the special interaction [type] and then
    publishes nothing, because the dry-run flag is set or because the send
    throws, the stamp of [type] is nevertheless the clock reading of the
    content generation: no post is recorded and the last post time is
    unchanged, yet [type] cannot fire again before that stamp plus the
    cooldown, whatever the draw. *)
Theorem cooldown_spent_without_post (p : Profile) (dryRun : bool)
    (c : Client) (w : World) (r : Readings) (type : string) :
  isPosting c = false ->
  ensureUserExists_ok r = true ->
  triggers type (generateTweetContent c w r).1.1 = true ->
  dryRun = true \/ sendResult r = Threw ->
  lastSpecialInteraction (generateTweetContent c w r).1.2 !! type
    = Some (stampClock r) /\
  sendCalls (generateTweetContent c w r).2 = sendCalls w /\
  published (generateNewTweet p dryRun c w r).2 = published w /\
  lastPost (generateNewTweet p dryRun c w r).2 = lastPost w /\
  lastPostTime (generateNewTweet p dryRun c w r).1 = lastPostTime c /\
  lastSpecialInteraction (generateNewTweet p dryRun c w r).1 !! type
    = Some (stampClock r) /\
  specialInteractionCooldown (generateNewTweet p dryRun c w r).1
    = specialInteractionCooldown c /\
  forall now random,
    now < stampClock r + specialInteractionCooldown c ->
    shouldTriggerSpecialInteraction (generateNewTweet p dryRun c w r).1 type
      now random = false.
Proof.
  intros Hidle Huser Hfire Hnopost.
  destruct (triggers_special c w r type Hfire) as (text & Htext & Htry).
  assert (Hrun : generateNewTweet p dryRun c w r =
                 (withPosting false (stamped type (stampClock r) c),
                  if dryRun then withAccount (agentId p) w
                  else withSendCall text (withAccount (agentId p) w))).
  { unfold generateNewTweet, generateTweetContent.
    rewrite Hidle, Huser, trySpecialTweet_withPosting, Htry. simpl.
    rewrite Htext. simpl.
    destruct dryRun; [reflexivity|].
    destruct Hnopost as [Hdry|Hsend]; [discriminate|].
    rewrite Hsend. reflexivity. }
  rewrite Hrun. cbn [fst snd].
  assert (Hstamp : lastSpecialInteraction
                     (withPosting false (stamped type (stampClock r) c))
                     !! type = Some (stampClock r))
    by apply lookup_insert_eq.
  assert (Hgen : generateTweetContent c w r =
                 (Returned (mkPostResponse text true (Some type)),
                  stamped type (stampClock r) c, w))
    by (unfold generateTweetContent; now rewrite Htry).
  rewrite Hgen. cbn [fst snd].
  repeat split.
  - exact Hstamp.
  - now destruct dryRun.
  - now destruct dryRun.
  - exact Hstamp.
  - intros now random Hnow.
    exact (on_cooldown_no_trigger _ type (stampClock r) now random Hstamp Hnow).
Qed.

Lemma cooldown_spent_without_post_witness :
  triggers "tate"
    (generateTweetContent Examples.tateClient Examples.emptyWorld
       Examples.firstRun).1.1 = true /\
  published
    (generateNewTweet Examples.willy true Examples.tateClient
       Examples.emptyWorld Examples.firstRun).2 = [] /\
  shouldTriggerSpecialInteraction
    (generateNewTweet Examples.willy true Examples.tateClient
       Examples.emptyWorld Examples.firstRun).1 "tate"
    (Examples.now0 + 1000) 0 = false.
Proof.
  assert (Hfire : triggers "tate"
                    (generateTweetContent Examples.tateClient
                       Examples.emptyWorld Examples.firstRun).1.1 = true)
    by (vm_compute; reflexivity).
  pose proof (cooldown_spent_without_post Examples.willy true
                Examples.tateClient Examples.emptyWorld Examples.firstRun
                "tate" eq_refl eq_refl Hfire (or_introl eq_refl))
    as (_ & _ & Hpub & _ & _ & _ & _ & Hwait).
  split; [exact Hfire|]. split; [exact Hpub|].
  apply Hwait. vm_compute. reflexivity.
Defined.

Lemma generateNormalTweet_frame (w : World) (r : Readings) :
  cachedTweets (generateNormalTweet w r).2 = cachedTweets w /\
  lastPost (generateNormalTweet w r).2 = lastPost w /\
  accounts (generateNormalTweet w r).2 = accounts w /\
  rooms (generateNormalTweet w r).2 = rooms w /\
  memories (generateNormalTweet w r).2 = memories w /\
  sendCalls (generateNormalTweet w r).2 = sendCalls w /\
  published (generateNormalTweet w r).2 = published w /\
  cachedTimeline (generateNormalTweet w r).2 =
    match cachedTimeline w, fetchedTimeline r with
    | Some tl, _ => Some tl
    | None, Returned tl => Some tl
    | None, Threw => None
    end.
Proof.
  unfold generateNormalTweet.
  destruct (cachedTimeline w) eqn:Hc; [|destruct (fetchedTimeline r)];
    destruct (generatedText r); simpl; rewrite ?Hc; repeat split.
Qed.

Lemma generateTweetContent_frame (c : Client) (w : World) (r : Readings) :
  lastPostTime (generateTweetContent c w r).1.2 = lastPostTime c /\
  isPosting (generateTweetContent c w r).1.2 = isPosting c /\
  cachedTweets (generateTweetContent c w r).2 = cachedTweets w /\
  lastPost (generateTweetContent c w r).2 = lastPost w /\
  accounts (generateTweetContent c w r).2 = accounts w /\
  rooms (generateTweetContent c w r).2 = rooms w /\
  memories (generateTweetContent c w r).2 = memories w /\
  sendCalls (generateTweetContent c w r).2 = sendCalls w /\
  published (generateTweetContent c w r).2 = published w /\
  match cachedTimeline w with
  | Some tl => cachedTimeline (generateTweetContent c w r).2 = Some tl
  | None => True
  end.
Proof.
  destruct (generateTweetContent_cases c w r)
    as [(type & text & _ & _ & ->)| ->]; cbn [fst snd].
  - repeat split. now destruct (cachedTimeline w).
  - destruct (generateNormalTweet_frame w r)
      as (H1 & H2 & H3 & H4 & H5 & H6 & H7 & H8).
    repeat split; try assumption.
    rewrite H8. now destruct (cachedTimeline w).
Qed.

(** In dry-run mode the run ends where content generation ended. *)
Lemma generateNewTweet_dry_run (p : Profile) (c : Client) (w : World)
    (r : Readings) :
  generateNewTweet p true c w r =
  if isPosting c then (c, w)
  else if negb (ensureUserExists_ok r) then (c, w)
  else
    (withPosting false
       (generateTweetContent (withPosting true c)
          (withAccount (agentId p) w) r).1.2,
     (generateTweetContent (withPosting true c)
        (withAccount (agentId p) w) r).2).
Proof.
  unfold generateNewTweet.
  destruct (isPosting c) eqn:Hp; [reflexivity|].
  destruct (negb (ensureUserExists_ok r)).
  - destruct c. simpl in Hp. subst. reflexivity.
  - destruct (generateTweetContent _ _ r) as [[[resp|] c1] w1];
      [|reflexivity].
    simpl. destruct (negb (truthy (content resp))); reflexivity.
Qed.

(** C7. A dry run of [generateNewTweet] goes through content generation
    and stops before the send: it hands nothing to [sendTweet], publishes
    nothing, leaves the cached tweets, the cached last post, the rooms, the
    memories and the last post time unchanged, and keeps a timeline that was
    already cached.  The state it leaves is the state that content
    generation leaves, with [isPosting] cleared. *)
Theorem dry_run_stops_before_the_send (p : Profile) (c : Client) (w : World)
    (r : Readings) :
  sendCalls (generateNewTweet p true c w r).2 = sendCalls w /\
  published (generateNewTweet p true c w r).2 = published w /\
  cachedTweets (generateNewTweet p true c w r).2 = cachedTweets w /\
  lastPost (generateNewTweet p true c w r).2 = lastPost w /\
  rooms (generateNewTweet p true c w r).2 = rooms w /\
  memories (generateNewTweet p true c w r).2 = memories w /\
  lastPostTime (generateNewTweet p true c w r).1 = lastPostTime c /\
  match cachedTimeline w with
  | Some tl => cachedTimeline (generateNewTweet p true c w r).2 = Some tl
  | None => True
  end /\
  generateNewTweet p true c w r =
    if isPosting c then (c, w)
    else if negb (ensureUserExists_ok r) then (c, w)
    else
      (withPosting false
         (generateTweetContent (withPosting true c)
            (withAccount (agentId p) w) r).1.2,
       (generateTweetContent (withPosting true c)
          (withAccount (agentId p) w) r).2).
Proof.
  rewrite generateNewTweet_dry_run.
  destruct (isPosting c);
    [cbn [fst snd]; repeat split; now destruct (cachedTimeline w)|].
  destruct (negb (ensureUserExists_ok r));
    [cbn [fst snd]; repeat split; now destruct (cachedTimeline w)|].
  destruct (generateTweetContent_frame (withPosting true c)
              (withAccount (agentId p) w) r)
    as (H1 & H2 & H3 & H4 & H5 & H6 & H7 & H8 & H9 & H10).
  cbn [fst snd]. repeat split; try assumption.
Qed.

(** A dry run that finds no cached timeline fills the timeline cache, and a
    dry run that selects a special interaction stamps it: the run sends
    nothing, but the state is not what it was. *)
Lemma dry_run_changes_state :
  cachedTimeline Examples.emptyWorld = None /\
  cachedTimeline
    (generateNewTweet Examples.willy true Examples.plainClient
       Examples.emptyWorld Examples.firstRun).2 = Some [Examples.tweetA] /\
  lastSpecialInteraction Examples.tateClient !! "tate" = Some 0 /\
  lastSpecialInteraction
    (generateNewTweet Examples.willy true Examples.tateClient
       Examples.emptyWorld Examples.firstRun).1 !! "tate"
    = Some (Examples.now0 + 1) /\
  sendCalls
    (generateNewTweet Examples.willy true Examples.tateClient
       Examples.emptyWorld Examples.firstRun).2 = [].
Proof. repeat split; vm_compute; reflexivity. Qed.

End Cooldown.

(** ** The reply thread *)

Section Thread.
Import ThreadBuilder.

Lemma processThread_visits (getTweet : N -> Fetched) (maxReplies : Z)
    (currentTweet : Tweet) (depth : Z) (s : Traversal) :
  (visits (processThread getTweet maxReplies currentTweet depth s)
   <= visits s + Z.to_nat (maxReplies - depth) + 1)%nat.
Proof.
  funelim (processThread getTweet maxReplies currentTweet depth s);
    simpl in *; lia.
Qed.

Lemma processThread_distinct (getTweet : N -> Fetched) (maxReplies : Z)
    (currentTweet : Tweet) (depth : Z) (s : Traversal) :
  distinct s ->
  distinct (processThread getTweet maxReplies currentTweet depth s).
Proof.
  funelim (processThread getTweet maxReplies currentTweet depth s);
    intros [Hnd Hin]; try (split; assumption).
  - match goal with IH : distinct _ -> distinct _ |- _ => apply IH end.
    apply bool_decide_eq_false in Heq0. split; simpl.
    + apply NoDup_cons. split; [|assumption]. intros Hi. apply Heq0, Hin, Hi.
    + intros i [->|Hi]%elem_of_cons; apply elem_of_union.
      * left. now apply elem_of_singleton.
      * right. apply Hin, Hi.
  - apply bool_decide_eq_false in Heq0. split; simpl.
    + apply NoDup_cons. split; [|assumption]. intros Hi. apply Heq0, Hin, Hi.
    + intros i [->|Hi]%elem_of_cons; apply elem_of_union.
      * left. now apply elem_of_singleton.
      * right. apply Hin, Hi.
Qed.

Lemma processThread_revisit (getTweet : N -> Fetched) (maxReplies : Z)
    (currentTweet : Tweet) (depth : Z) (s : Traversal) :
  id currentTweet ∈ visited s ->
  thread (processThread getTweet maxReplies currentTweet depth s) = thread s.
Proof.
  funelim (processThread getTweet maxReplies currentTweet depth s);
    intros Hv; try reflexivity;
    apply bool_decide_eq_false in Heq0; contradiction.
Qed.

(** One call of [processThread] on a tweet within the depth bound that has
    not been visited yet. *)
Lemma processThread_step (getTweet : N -> Fetched) (maxReplies : Z)
    (currentTweet : Tweet) (depth : Z) (s : Traversal) :
  depth < maxReplies ->
  id currentTweet ∉ visited s ->
  processThread getTweet maxReplies currentTweet depth s =
  let s' :=
    mkTraversal (currentTweet :: thread s) ({[id currentTweet]} ∪ visited s)
      ({[id currentTweet]} ∪ stored s) (S (visits s)) in
  match parentOf getTweet currentTweet with
  | Some parentTweet =>
      processThread getTweet maxReplies parentTweet (depth + 1) s'
  | None => s'
  end.
Proof.
  intros Hd Hv.
  funelim (processThread getTweet maxReplies currentTweet depth s);
    try (apply bool_decide_eq_true in Heq; contradiction);
    try contradiction.
  - rewrite Heq. reflexivity.
  - rewrite Heq. reflexivity.
Qed.

(** C4. [buildConversationThread] makes at most [maxReplies + 1] calls of
    [processThread] (one call when [maxReplies] is not positive) and the ids
    of the thread it returns are pairwise distinct, whatever the feed
    answers.  For a depth bound of at least 1, a candidate that replies to
    its own id, where the feed answers that id with a tweet of that id,
    yields the thread made of the candidate alone. *)
Theorem thread_bounded_and_distinct (getTweet : N -> Fetched)
    (store : gset N) (tweet : Tweet) (maxReplies : Z) :
  (visits (buildConversationThread getTweet store tweet maxReplies)
   <= Z.to_nat maxReplies + 1)%nat /\
  NoDup (id <$> thread (buildConversationThread getTweet store tweet
                          maxReplies)) /\
  (1 <= maxReplies ->
   inReplyToStatusId tweet = Some (id tweet) ->
   (forall parentTweet,
      getTweet (id tweet) = Found parentTweet ->
      id parentTweet = id tweet) ->
   thread (buildConversationThread getTweet store tweet maxReplies)
     = [tweet]).
Proof.
  unfold buildConversationThread. split; [|split].
  - pose proof (processThread_visits getTweet maxReplies tweet 0
                  (mkTraversal [] ∅ store 0)) as H.
    simpl in H. rewrite Z.sub_0_r in H. exact H.
  - apply processThread_distinct. split; simpl; [constructor|].
    intros i Hi. inversion Hi.
  - intros Hdepth Hself Hfeed.
    rewrite processThread_step; [|simpl; lia|simpl; set_solver].
    cbn zeta. unfold parentOf. rewrite Hself.
    destruct (getTweet (id tweet)) as [parentTweet| |] eqn:Hget;
      try reflexivity.
    rewrite processThread_revisit; [reflexivity|].
    simpl. rewrite (Hfeed parentTweet eq_refl). set_solver.
Qed.

Lemma thread_bounded_and_distinct_witness :
  inReplyToStatusId Examples.selfReply = Some (id Examples.selfReply) /\
  thread (buildConversationThread Examples.echoFeed ∅ Examples.selfReply 2)
    = [Examples.selfReply].
Proof.
  split; [reflexivity|].
  apply (proj2 (proj2 (thread_bounded_and_distinct Examples.echoFeed ∅
                         Examples.selfReply 2))); [lia|reflexivity|].
  intros parentTweet. unfold Examples.echoFeed. simpl.
  intros [= <-]. reflexivity.
Defined.

(** With a depth bound of 0 the traversal stops before it records the
    candidate: the thread of a tweet that replies to itself is empty. *)
Lemma self_reply_at_depth_zero :
  inReplyToStatusId Examples.selfReply = Some (id Examples.selfReply) /\
  thread (buildConversationThread Examples.echoFeed ∅ Examples.selfReply 0)
    = [] /\
  thread (buildConversationThread Examples.echoFeed ∅ Examples.selfReply 1)
    = [Examples.selfReply].
Proof. repeat split; vm_compute; reflexivity. Qed.

End Thread.

(** * Further properties *)

(** ** Rate limits over batches and polls *)

Section RateLimits.
Import Interactions.

Local Arguments handleCandidate : simpl never.

(** X1. Recording a reply to a user refuses that user until
    [minTimeBetweenReplies] has passed since the recorded time, and changes
    nothing for any other user or any other thread. *)
Theorem recorded_reply_blocks_the_user (c : Client) (u conv : string)
    (t : Z) :
  (forall now,
     now - t < minTimeBetweenReplies (limits c) ->
     canReplyToUser (updateInteractionTracking c u conv t) u now = false) /\
  (forall other now,
     other <> u ->
     canReplyToUser (updateInteractionTracking c u conv t) other now
       = canReplyToUser c other now) /\
  (forall other,
     other <> conv ->
     canReplyInThread (updateInteractionTracking c u conv t) other
       = canReplyInThread c other).
Proof.
  split; [|split].
  - intros now Hnow. unfold canReplyToUser, updateInteractionTracking. simpl.
    rewrite !lookup_insert_eq. simpl.
    apply andb_false_iff. right. rewrite Z.geb_leb. apply Z.leb_gt. lia.
  - intros other now Hne. unfold canReplyToUser, updateInteractionTracking.
    simpl. now rewrite !lookup_insert_ne by congruence.
  - intros other Hne. unfold canReplyInThread, updateInteractionTracking.
    simpl. now rewrite !lookup_insert_ne by congruence.
Qed.

Lemma recorded_reply_blocks_the_user_witness :
  canReplyToUser
    (updateInteractionTracking Examples.freshClient "u1" "c1" Examples.now0)
    "u1" (Examples.now0 + 1000) = false.
Proof.
  apply (proj1 (recorded_reply_blocks_the_user Examples.freshClient "u1" "c1"
                  Examples.now0)).
  vm_compute. reflexivity.
Defined.









End RateLimits.

(** ** The checkpoint and the candidates over polls *)

Section Polls.
Import Interactions.

Local Arguments handleCandidate : simpl never.




Lemma uniqueTweetCandidates_not_self (profileId : string)
    (tweetCandidates : list Candidate) (tweet : Tweet) :
  In tweet (uniqueTweetCandidates profileId tweetCandidates).*1 ->
  userId tweet <> profileId.
Proof.
  unfold uniqueTweetCandidates. intros Hin.
  apply in_map_iff in Hin as ([t r] & <- & Hin).
  apply filter_In in Hin as [_ Hf]. simpl in *.
  apply negb_true_iff in Hf. now apply String.eqb_neq.
Qed.

Lemma in_take {A : Type} (x : A) (n : nat) (l : list A) :
  In x (take n l) -> In x l.
Proof.
  revert n. induction l as [|y l IH]; intros [|n]; simpl; try tauto.
  intros [->|H]; [now left|right; eapply IH, H].
Qed.

Lemma responses_none (sel : Tweet -> bool)
    (outcomes : list (Tweet * Outcome)) :
  (forall tweet o, In (tweet, o) outcomes -> sel tweet = false) ->
  Observed.responses sel outcomes = 0.
Proof.
  induction outcomes as [|[tweet o] outcomes IH]; intros H; [reflexivity|].
  rewrite responses_cons, IH.
  - rewrite (H tweet o) by now left. now rewrite andb_false_r.
  - intros t' o' Hin. apply (H t' o'). now right.
Qed.

Lemma handleTwitterInteractions_user_count (profileId : string)
    (fetched : Completion (list Candidate)) (c : Client) (u : string) :
  default 0
    (recentReplies (handleTwitterInteractions profileId fetched c).1 !! u)
  = default 0 (recentReplies c !! u)
    + Observed.responses (Observed.byUser u)
        (handleTwitterInteractions profileId fetched c).2.
Proof.
  change (recentReplies (handleTwitterInteractions profileId fetched c).1)
    with (Observed.tracking
            (handleTwitterInteractions profileId fetched c).1).1.1.
  rewrite handleTwitterInteractions_tracking,
    handleTwitterInteractions_outcomes.
  destruct fetched as [cands|]; [|unfold Observed.responses; simpl; lia].
  apply (forEachCandidate_counts profileId _
           (logged [(LOG, "Checking Twitter interactions")] c) u "").
Qed.

(** X4. A batch never handles a tweet written by the agent itself: no
    outcome of a poll belongs to a tweet whose author is the profile, and
    the reply count recorded for the profile's own id stays what it was. *)
Theorem own_tweets_are_never_handled (profileId : string)
    (fetched : Completion (list Candidate)) (c : Client) :
  (forall tweet o,
     In (tweet, o) (handleTwitterInteractions profileId fetched c).2 ->
     userId tweet <> profileId) /\
  default 0
    (recentReplies (handleTwitterInteractions profileId fetched c).1
       !! profileId)
  = default 0 (recentReplies c !! profileId).
Proof.
  assert (Hown : forall tweet o,
            In (tweet, o) (handleTwitterInteractions profileId fetched c).2 ->
            userId tweet <> profileId).
  { intros tweet o. rewrite handleTwitterInteractions_outcomes.
    destruct fetched as [cands|]; [|intros []].
    intros Hin.
    apply (uniqueTweetCandidates_not_self profileId cands).
    destruct (forEachCandidate_shape profileId
                (uniqueTweetCandidates profileId cands)
                (logged [(LOG, "Checking Twitter interactions")] c))
      as (Hprefix & _).
    eapply in_take. rewrite <- Hprefix.
    apply in_map_iff. exists (tweet, o). now split. }
  split; [exact Hown|].
  rewrite handleTwitterInteractions_user_count, responses_none; [lia|].
  intros tweet o Hin. apply String.eqb_neq. eapply Hown, Hin.
Qed.

Lemma own_tweets_are_never_handled_witness :
  In (Examples.tweetA, Handled (Some IGNORE))
    (handleTwitterInteractions "willy" Examples.skippingPoll
       Examples.freshClient).2 /\
  userId Examples.tweetA <> "willy".
Proof.
  assert (Hin : In (Examples.tweetA, Handled (Some IGNORE))
                  (handleTwitterInteractions "willy" Examples.skippingPoll
                     Examples.freshClient).2)
    by (vm_compute; left; reflexivity).
  split; [exact Hin|].
  exact (proj1 (own_tweets_are_never_handled "willy" Examples.skippingPoll
                  Examples.freshClient) _ _ Hin).
Defined.

(** X5. [handleTweet] returns [RESPOND] only for a tweet of another author
    with a non-empty text, after [generateShouldRespond] has answered
    [RESPOND], the generated response has a non-empty text, and the block
    that sends it has run to its end; the text it returns is that of the
    response. *)
Theorem handleTweet_responds_only_when (profileId : string) (tweet : Tweet)
    (messageText : string) (h : HandleReadings) (res : HandleResult) :
  (handleTweet profileId tweet messageText h).1 = Returned res ->
  action res = Some RESPOND ->
  userId tweet <> profileId /\
  truthy messageText = true /\
  shouldRespond h = Returned SR_RESPOND /\
  responseText h = Returned (result_text res) /\
  truthy (result_text res) = true /\
  responseSent h = true.
Proof.
  unfold handleTweet.
  destruct (String.eqb_spec (userId tweet) profileId) as [|Hne];
    [intros [= <-]; discriminate|].
  destruct (truthy messageText); simpl; [|intros [= <-]; discriminate].
  destruct (homeTimeline_ok h); simpl; [|discriminate].
  destruct (tweetExists h); [|discriminate].
  destruct (shouldRespond h) as [[| | |]|]; simpl;
    try (intros [= <-]; discriminate); try discriminate.
  destruct (responseText h) as [text|]; [|discriminate].
  destruct (truthy text) eqn:Ht; [|intros [= <-]; discriminate].
  destruct (responseSent h); intros [= <-]; [|discriminate].
  intros _. simpl. repeat split; try assumption.
Qed.

Lemma handleTweet_responds_only_when_witness :
  (handleTweet "willy" Examples.tweetB (text Examples.tweetB)
     (handling Examples.answered)).1
    = Returned (mkHandleResult "soon" (Some RESPOND)) /\
  responseSent (handling Examples.answered) = true.
Proof.
  assert (H : (handleTweet "willy" Examples.tweetB (text Examples.tweetB)
                 (handling Examples.answered)).1
              = Returned (mkHandleResult "soon" (Some RESPOND)))
    by reflexivity.
  split; [exact H|].
  exact (proj2 (proj2 (proj2 (proj2 (proj2
           (handleTweet_responds_only_when "willy" Examples.tweetB
              (text Examples.tweetB) (handling Examples.answered)
              (mkHandleResult "soon" (Some RESPOND)) H eq_refl)))))).
Defined.

End Polls.

(** ** The daily cleanup *)

Section Cleanup.
Import Interactions Maintenance.

(** Some entry of [l] for the user [u] is older than [oneDayAgo]. *)
Lemma purge_all (oneDayAgo : Z) (l : list (string * Z))
    (times counts : gmap string Z) (u : string) :
  (fold_left (purge oneDayAgo) l (times, counts)).1 !! u
  = (if existsb (fun e => String.eqb e.1 u && (e.2 <? oneDayAgo)) l
     then None else times !! u) /\
  (fold_left (purge oneDayAgo) l (times, counts)).2 !! u
  = (if existsb (fun e => String.eqb e.1 u && (e.2 <? oneDayAgo)) l
     then None else counts !! u).
Proof.
  revert times counts. induction l as [|[k t] l IH]; intros times counts.
  - now split.
  - simpl. unfold purge at 2 4. simpl.
    destruct (t <? oneDayAgo) eqn:Ht; simpl.
    + destruct (IH (delete k times) (delete k counts)) as [-> ->].
      destruct (String.eqb_spec k u) as [->|Hne]; simpl.
      * rewrite !lookup_delete_eq. now destruct (existsb _ l).
      * rewrite !lookup_delete_ne by assumption. now split.
    + rewrite andb_false_r. simpl. apply IH.
Qed.

Lemma stale_entry_iff (oneDayAgo : Z) (times : gmap string Z) (u : string) :
  existsb (fun e => String.eqb e.1 u && (e.2 <? oneDayAgo))
    (map_to_list times)
  = match times !! u with
    | Some t => t <? oneDayAgo
    | None => false
    end.
Proof.
  apply eq_true_iff_eq. rewrite existsb_exists. split.
  - intros ([k t] & Hin & Hst). simpl in Hst.
    apply andb_true_iff in Hst as [Hk Ht]. apply String.eqb_eq in Hk. subst k.
    apply list_elem_of_In, elem_of_map_to_list in Hin. now rewrite Hin.
  - destruct (times !! u) as [t|] eqn:Hu; [|discriminate].
    intros Ht. exists (u, t). split.
    + now apply list_elem_of_In, elem_of_map_to_list.
    + simpl. now rewrite String.eqb_refl.
Qed.

Lemma cleanupTrackingMaps_lookups (c : Client) (now : Z) (u : string) :
  lastReplyTime (cleanupTrackingMaps c now) !! u
  = match lastReplyTime c !! u with
    | Some t => if t <? now - 86400000 then None else Some t
    | None => None
    end /\
  recentReplies (cleanupTrackingMaps c now) !! u
  = match lastReplyTime c !! u with
    | Some t => if t <? now - 86400000 then None else recentReplies c !! u
    | None => recentReplies c !! u
    end /\
  threadReplies (cleanupTrackingMaps c now) = ∅.
Proof.
  unfold cleanupTrackingMaps. cbn [lastReplyTime recentReplies threadReplies].
  change (now - 24 * 60 * 60 * 1000) with (now - 86400000).
  destruct (purge_all (now - 86400000) (map_to_list (lastReplyTime c))
              (lastReplyTime c) (recentReplies c) u) as [-> ->].
  rewrite stale_entry_iff.
  destruct (lastReplyTime c !! u) as [t|] eqn:Hu; [|now rewrite ?Hu].
  destruct (t <? now - 86400000); rewrite ?Hu; now repeat split.
Qed.


(** X6. [cleanupTrackingMaps] forgets a user, both the reply count and the
    time of the last reply, exactly when the last reply to that user is more
    than 24 hours old; an entry that is younger stays as it is, and so does
    a reply count without a recorded time.  The reply counts of all threads
    are cleared. *)
Theorem cleanup_forgets_only_stale_users (c : Client) (now : Z) (u : string) :
  lastReplyTime (cleanupTrackingMaps c now) !! u
  = match lastReplyTime c !! u with
    | Some t => if t <? now - 86400000 then None else Some t
    | None => None
    end /\
  recentReplies (cleanupTrackingMaps c now) !! u
  = match lastReplyTime c !! u with
    | Some t => if t <? now - 86400000 then None else recentReplies c !! u
    | None => recentReplies c !! u
    end /\
  threadReplies (cleanupTrackingMaps c now) = ∅.
Proof. apply cleanupTrackingMaps_lookups. Qed.

(** X7. After the cleanup a user whose last reply is more than 24 hours old
    is judged like a user never replied to, whatever the reply count was,
    and every thread is judged like a thread never replied in. *)
Theorem cleanup_reopens_stale_users (c : Client) (now : Z) (u conv : string)
    (t : Z) :
  lastReplyTime c !! u = Some t ->
  t < now - 86400000 ->
  canReplyToUser (cleanupTrackingMaps c now) u now
    = (0 <? maxRepliesPerUser (limits c))
      && (now >=? minTimeBetweenReplies (limits c)) /\
  canReplyInThread (cleanupTrackingMaps c now) conv
    = (0 <? maxRepliesPerThread (limits c)).
Proof.
  intros Hu Hold.
  destruct (cleanupTrackingMaps_lookups c now u) as (Hl & Hr & Ht).
  split.
  - unfold canReplyToUser. rewrite Hl, Hr, Hu.
    apply Z.ltb_lt in Hold. rewrite Hold. simpl. now rewrite Z.sub_0_r.
  - unfold canReplyInThread. rewrite Ht, lookup_empty. reflexivity.
Qed.

Lemma cleanup_reopens_stale_users_witness :
  canReplyToUser
    (cleanupTrackingMaps
       (updateInteractionTracking Examples.freshClient "u1" "c1" 1000)
       Examples.now0) "u1" Examples.now0 = true.
Proof.
  rewrite (proj1 (cleanup_reopens_stale_users
                    (updateInteractionTracking Examples.freshClient "u1" "c1"
                       1000)
                    Examples.now0 "u1" "c1" 1000 eq_refl eq_refl)).
  reflexivity.
Defined.

End Cleanup.

(** ** More on the reply thread *)

Section ThreadShapes.
Import ThreadBuilder ThreadShape.

Lemma processThread_length (getTweet : N -> Fetched) (maxReplies : Z)
    (currentTweet : Tweet) (depth : Z) (s : Traversal) :
  (List.length (thread (processThread getTweet maxReplies currentTweet depth s))
   <= List.length (thread s) + Z.to_nat (maxReplies - depth))%nat.
Proof.
  funelim (processThread getTweet maxReplies currentTweet depth s);
    simpl in *; lia.
Qed.

(** X8. The thread that [buildConversationThread] returns has at most
    [maxReplies] tweets, and none when [maxReplies] is not positive. *)
Theorem thread_length_bounded (getTweet : N -> Fetched) (store : gset N)
    (tweet : Tweet) (maxReplies : Z) :
  (List.length (thread (buildConversationThread getTweet store tweet
                          maxReplies))
   <= Z.to_nat maxReplies)%nat.
Proof.
  unfold buildConversationThread.
  pose proof (processThread_length getTweet maxReplies tweet 0
                (mkTraversal [] ∅ store 0)) as H.
  simpl in H. now rewrite Z.sub_0_r in H.
Qed.

Lemma processThread_extends (getTweet : N -> Fetched) (maxReplies : Z)
    (currentTweet : Tweet) (depth : Z) (s : Traversal) :
  exists ancestors,
    thread (processThread getTweet maxReplies currentTweet depth s)
      = (ancestors ++ thread s)%list.
Proof.
  funelim (processThread getTweet maxReplies currentTweet depth s);
    try (now exists []).
  - destruct H as [ancestors ->]. exists (ancestors ++ [currentTweet])%list.
    simpl. now rewrite <- app_assoc.
  - now exists [currentTweet].
Qed.

Lemma processThread_linked (getTweet : N -> Fetched) (maxReplies : Z)
    (currentTweet : Tweet) (depth : Z) (s : Traversal) :
  linked getTweet (thread s) ->
  match thread s with
  | [] => True
  | child :: _ => parentOf getTweet child = Some currentTweet
  end ->
  linked getTweet
    (thread (processThread getTweet maxReplies currentTweet depth s)).
Proof.
  funelim (processThread getTweet maxReplies currentTweet depth s);
    intros Hl Hhead; try assumption.
  - apply H; simpl; [|assumption]. split; [|assumption].
    destruct (thread s); [exact I|assumption].
  - simpl. split; [|assumption]. destruct (thread s); [exact I|assumption].
Qed.

(** X9. For a depth bound of at least 1, the thread ends with the candidate
    and is a chain of parents: every tweet in it but the candidate is the
    tweet the feed returned as the parent of the one that follows.  When the
    candidate is not a reply, or the feed has no parent for it, or the fetch
    of the parent throws, the thread is the candidate alone. *)
Theorem thread_is_chain_to_candidate (getTweet : N -> Fetched)
    (store : gset N) (tweet : Tweet) (maxReplies : Z) :
  1 <= maxReplies ->
  (exists ancestors,
     thread (buildConversationThread getTweet store tweet maxReplies)
       = (ancestors ++ [tweet])%list) /\
  linked getTweet
    (thread (buildConversationThread getTweet store tweet maxReplies)) /\
  (parentOf getTweet tweet = None ->
   thread (buildConversationThread getTweet store tweet maxReplies)
     = [tweet]).
Proof.
  intros Hdepth. unfold buildConversationThread. split; [|split].
  - rewrite processThread_step; [|simpl; lia|simpl; set_solver].
    cbn zeta. destruct (parentOf getTweet tweet) as [parentTweet|].
    + apply processThread_extends.
    + now exists [].
  - apply processThread_linked; exact I.
  - intros Hnone.
    rewrite processThread_step; [|simpl; lia|simpl; set_solver].
    cbn zeta. now rewrite Hnone.
Qed.

Lemma thread_is_chain_to_candidate_witness :
  exists ancestors,
    thread (buildConversationThread Examples.echoFeed ∅ Examples.selfReply 5)
      = (ancestors ++ [Examples.selfReply])%list.
Proof.
  apply (proj1 (thread_is_chain_to_candidate Examples.echoFeed ∅
                  Examples.selfReply 5 ltac:(lia))).
Defined.







End ThreadShapes.

(** ** More on the selection and the posting of content *)

Section Posting.
Import PostClient.

Lemma sample_In {A : Type} (pick : nat) (l : list A) (x : A) :
  sample pick l = Some x -> In x l.
Proof.
  unfold sample. destruct l as [|y l]; [discriminate|].
  apply nth_error_In.
Qed.

Lemma sample_key (pick : nat) (m : gmap string SpecialInteraction)
    (key : string) :
  sample pick (map_to_list m).*1 = Some key -> is_Some (m !! key).
Proof.
  intros H. apply sample_In, in_map_iff in H as ([k i] & <- & Hin).
  apply list_elem_of_In, elem_of_map_to_list in Hin. simpl. now exists i.
Qed.

Lemma generateNormalTweet_plain (w : World) (r : Readings)
    (resp : PostResponse) :
  (generateNormalTweet w r).1 = Returned resp ->
  isSpecialInteraction resp = false.
Proof.
  unfold generateNormalTweet.
  destruct (cachedTimeline w); [|destruct (fetchedTimeline r)];
    try discriminate; destruct (generatedText r); try discriminate;
    intros [= <-]; reflexivity.
Qed.

Lemma generateSpecialTweet_shape (c : Client) (type : string)
    (pickTemplate pickTopic : nat) (now : Z) (resp : PostResponse)
    (c' : Client) :
  generateSpecialTweet c type pickTemplate pickTopic now = (Some resp, c') ->
  exists interaction template,
    specialInteractions c !! type = Some interaction /\
    In template (templates interaction) /\
    topics interaction <> [] /\
    resp = mkPostResponse (handle interaction ++ " " ++ template) true
             (Some type).
Proof.
  unfold generateSpecialTweet.
  destruct (specialInteractions c !! type) as [i|]; [|discriminate].
  destruct (sample pickTemplate (templates i)) as [template|] eqn:Ht;
    [|discriminate].
  destruct (sample pickTopic (topics i)) as [topic|] eqn:Hp; [|discriminate].
  destruct (truthy template && truthy topic); [|discriminate].
  intros [= <- _]. exists i, template. repeat split.
  - eapply sample_In, Ht.
  - intros Hnil. rewrite Hnil in Hp. discriminate.
Qed.

Lemma shouldTrigger_true (c : Client) (type : string) (now : Z) (random : Q) :
  shouldTriggerSpecialInteraction c type now random = true ->
  exists interaction,
    specialInteractions c !! type = Some interaction /\
    specialInteractionCooldown c
      <= now - default 0 (lastSpecialInteraction c !! type) /\
    Qltb random (probability interaction) = true.
Proof.
  unfold shouldTriggerSpecialInteraction.
  destruct (specialInteractions c !! type) as [i|]; [|discriminate].
  destruct (_ <? _) eqn:E; [discriminate|]. apply Z.ltb_ge in E.
  intros H. now exists i.
Qed.

(** X11. A tweet that [generateTweetContent] returns as a special
    interaction names a configured type whose cooldown has passed at the
    checking clock and whose probability exceeds the draw; the interaction
    has at least one topic, and the content is its handle, a space and one
    of its templates, not passed through the truncation. *)
Theorem special_tweet_shape (c : Client) (w : World) (r : Readings)
    (resp : PostResponse) :
  (generateTweetContent c w r).1.1 = Returned resp ->
  isSpecialInteraction resp = true ->
  exists type interaction template,
    interactionType resp = Some type /\
    specialInteractions c !! type = Some interaction /\
    In template (templates interaction) /\
    content resp = (handle interaction ++ " " ++ template)%string /\
    topics interaction <> [] /\
    specialInteractionCooldown c
      <= checkClock r - default 0 (lastSpecialInteraction c !! type) /\
    Qltb (draw r) (probability interaction) = true.
Proof.
  unfold generateTweetContent.
  destruct (trySpecialTweet c r) as [[special|] c1] eqn:Htry.
  - simpl. intros [= <-] _. unfold trySpecialTweet in Htry.
    destruct (sample (pickType r) (map_to_list (specialInteractions c)).*1)
      as [type|]; [|discriminate].
    destruct (truthy type); [|discriminate]. simpl in Htry.
    destruct (shouldTriggerSpecialInteraction c type (checkClock r) (draw r))
      eqn:Hs; [|discriminate].
    apply shouldTrigger_true in Hs as (i & Hi & Hcool & Hdraw).
    apply generateSpecialTweet_shape in Htry
      as (i' & template & Hi' & Hin & Htopics & ->).
    rewrite Hi in Hi'. injection Hi' as <-.
    exists type, i, template. now repeat split.
  - pose proof (generateNormalTweet_plain w r resp) as Hplain.
    destruct (generateNormalTweet w r) as [res w1]. simpl in *.
    intros Hres Hspecial. rewrite (Hplain Hres) in Hspecial. discriminate.
Qed.

Lemma special_tweet_shape_witness :
  exists type interaction template,
    Some "tate" = Some type /\
    specialInteractions Examples.tateClient !! type = Some interaction /\
    In template (templates interaction) /\
    "@Cobratate Paper hands never make generational wealth... just saying"
      = (handle interaction ++ " " ++ template)%string /\
    topics interaction <> [] /\
    specialInteractionCooldown Examples.tateClient
      <= checkClock Examples.firstRun
         - default 0 (lastSpecialInteraction Examples.tateClient !! type) /\
    Qltb (draw Examples.firstRun) (probability interaction) = true.
Proof.
  exact (special_tweet_shape Examples.tateClient Examples.emptyWorld
           Examples.firstRun
           (mkPostResponse
              "@Cobratate Paper hands never make generational wealth... just saying"
              true (Some "tate"))
           eq_refl eq_refl).
Defined.

(** X12. No special tweet is generated, and no stamp is set, whatever the
    readings, when every configured interaction lacks topics, lacks
    templates, or has a probability of 0 or less; in particular when no
    interaction is configured.  A topic is required although the text of the
    tweet does not use it. *)
Theorem unusable_interactions_never_fire (c : Client) (r : Readings) :
  (forall type interaction,
     specialInteractions c !! type = Some interaction ->
     topics interaction = [] \/ templates interaction = [] \/
     (probability interaction <= 0)%Q) ->
  (0 <= draw r)%Q ->
  trySpecialTweet c r = (None, c).
Proof.
  intros Hunusable Hdraw. unfold trySpecialTweet.
  destruct (sample (pickType r) (map_to_list (specialInteractions c)).*1)
    as [type|] eqn:Hsample; [|reflexivity].
  destruct (truthy type); [|reflexivity]. simpl.
  destruct (sample_key _ _ _ Hsample) as [i Hi].
  destruct (shouldTriggerSpecialInteraction c type (checkClock r) (draw r))
    eqn:Hs; [|reflexivity].
  apply shouldTrigger_true in Hs as (i' & Hi' & _ & Hlt).
  rewrite Hi in Hi'. injection Hi' as <-.
  unfold generateSpecialTweet. rewrite Hi.
  destruct (Hunusable type i Hi) as [Ht|[Ht|Hp]].
  - rewrite Ht. simpl. now destruct (sample (pickTemplate r) (templates i)).
  - rewrite Ht. reflexivity.
  - exfalso. unfold Qltb in Hlt. apply negb_true_iff in Hlt.
    assert (Hle : (probability i <= draw r)%Q) by lra.
    apply Qle_bool_iff in Hle. congruence.
Qed.

Lemma unusable_interactions_never_fire_witness :
  trySpecialTweet Samples.topiclessClient Examples.firstRun
    = (None, Samples.topiclessClient).
Proof.
  apply unusable_interactions_never_fire.
  - intros type interaction H. left.
    unfold Samples.topiclessClient in H. simpl in H.
    apply lookup_singleton_Some in H as [_ <-]. reflexivity.
  - vm_compute. discriminate.
Defined.


(** X13. [generateNewTweet] leaves the guard [isPosting] as it found it: a
    run that starts idle ends idle, whether it posts, stops at the dry-run
    flag or meets a throw, and a run that finds the guard set changes
    neither the client nor the world. *)
Theorem generateNewTweet_restores_guard (p : Profile) (dryRun : bool)
    (c : Client) (w : World) (r : Readings) :
  isPosting (generateNewTweet p dryRun c w r).1 = isPosting c /\
  (if isPosting c then generateNewTweet p dryRun c w r = (c, w) else True).
Proof.
  unfold generateNewTweet.
  destruct (isPosting c) eqn:Hp; [now split|].
  split; [|exact I].
  destruct (negb (ensureUserExists_ok r)); [reflexivity|].
  destruct (generateTweetContent _ _ r) as [[[resp|] c1] w1];
    [|reflexivity].
  destruct (negb (truthy (content resp))); [reflexivity|].
  destruct dryRun; [reflexivity|].
  destruct (sendResult r); reflexivity.
Qed.





Lemma stamps_reset (keys : list string) (stamps : gmap string Z)
    (key : string) :
  In key keys ->
  fold_left (fun stamps key => <[key := 0]> stamps) keys stamps !! key
    = Some 0.
Proof.
  revert stamps. induction keys as [|k keys IH]; intros stamps; [intros []|].
  simpl. destruct (in_dec string_dec key keys) as [Hin|Hnotin].
  - intros _. now apply IH.
  - intros [->|Hin]; [|contradiction].
    clear IH. revert stamps Hnotin.
    induction keys as [|k keys IH]; intros stamps Hnotin; simpl.
    + apply lookup_insert_eq.
    + rewrite insert_insert_ne.
      * apply IH. intros Hin. apply Hnotin. now right.
      * intros ->. apply Hnotin. now left.
Qed.

Lemma no_interactions_no_special (c : Client) (r : Readings) :
  specialInteractions c = ∅ -> trySpecialTweet c r = (None, c).
Proof.
  intros Hempty. unfold trySpecialTweet. rewrite Hempty, map_to_list_empty.
  reflexivity.
Qed.

(** X16. [loadSpecialInteractions] sets the stamp of every configured type
    to 0, whatever it was: once the clock is past one cooldown window, a
    configured type fires on the draw alone, so stamps of earlier posts do
    not survive a reload.  When the validation of the configuration throws,
    no interaction is configured and no special tweet is generated. *)
Theorem reload_forgets_cooldowns (c : Client) :
  (forall interactions cooldown type interaction now random,
     interactions !! type = Some interaction ->
     cooldown <= now ->
     shouldTriggerSpecialInteraction
       (PostSchedule.loadSpecialInteractions
          (Returned (interactions, cooldown)) c) type now random
     = Qltb random (probability interaction)) /\
  (forall r,
     trySpecialTweet (PostSchedule.loadSpecialInteractions Threw c) r
     = (None, PostSchedule.loadSpecialInteractions Threw c)).
Proof.
  split.
  - intros interactions cooldown type i now random Hi Hnow.
    unfold shouldTriggerSpecialInteraction,
      PostSchedule.loadSpecialInteractions. simpl.
    rewrite Hi, stamps_reset.
    + simpl. destruct (now - 0 <? cooldown) eqn:E; [|reflexivity].
      apply Z.ltb_lt in E. lia.
    + apply in_map_iff. exists (type, i). split; [reflexivity|].
      now apply list_elem_of_In, elem_of_map_to_list.
  - intros r. now apply no_interactions_no_special.
Qed.

Lemma reload_forgets_cooldowns_witness :
  shouldTriggerSpecialInteraction
    (PostSchedule.loadSpecialInteractions
       (Returned ({["tate" := Examples.tate]}, 86400000))
       (stamped "tate" Examples.now0 Examples.tateClient))
    "tate" (Examples.now0 + 1000) 0
  = Qltb 0 (probability Examples.tate).
Proof.
  apply (proj1 (reload_forgets_cooldowns
                  (stamped "tate" Examples.now0 Examples.tateClient))).
  - reflexivity.
  - vm_compute. discriminate.
Defined.

Lemma randomMinutes_bounds (c : Client) (random : Q) :
  (0 <= random)%Q -> (random < 1)%Q -> minMinutes c <= maxMinutes c ->
  minMinutes c <= PostSchedule.randomMinutes c random <= maxMinutes c.
Proof.
  intros H0 H1 Hmm. unfold PostSchedule.randomMinutes.
  set (n := maxMinutes c - minMinutes c + 1).
  assert (Hn : (0 < inject_Z n)%Q).
  { change 0%Q with (inject_Z 0). rewrite <- Zlt_Qlt. unfold n. lia. }
  assert (Hlow : 0 <= Qfloor (random * inject_Z n)).
  { rewrite <- (Qfloor_Z 0). apply Qfloor_resp_le.
    apply Qmult_le_0_compat; [assumption|]. now apply Qlt_le_weak. }
  assert (Hhigh : Qfloor (random * inject_Z n) < n).
  { rewrite Zlt_Qlt. eapply Qle_lt_trans; [apply Qfloor_le|].
    apply Qlt_le_trans with (1 * inject_Z n)%Q.
    - now apply Qmult_lt_compat_r.
    - rewrite Qmult_1_l. apply Qle_refl. }
  unfold n in *. lia.
Qed.

(** X17. With a draw in [0, 1) and [minMinutes] not above [maxMinutes],
    every run of the posting loop sets its timer to a whole number of
    minutes between [minMinutes] and [maxMinutes], bounds included; with
    equal bounds the delay is exactly that many minutes. *)
Theorem next_check_within_bounds (p : Profile) (dryRun : bool) (c : Client)
    (w : World) (now : Z) (random : Q) (r : Readings) :
  (0 <= random)%Q -> (random < 1)%Q -> minMinutes c <= maxMinutes c ->
  (PostSchedule.generateNewTweetLoop p dryRun c w now random r).2
    = PostSchedule.randomMinutes c random * 60 * 1000 /\
  minMinutes c <= PostSchedule.randomMinutes c random <= maxMinutes c /\
  (minMinutes c = maxMinutes c ->
   (PostSchedule.generateNewTweetLoop p dryRun c w now random r).2
     = minMinutes c * 60000).
Proof.
  intros H0 H1 Hmm.
  pose proof (randomMinutes_bounds c random H0 H1 Hmm) as Hb.
  assert (Hd : (PostSchedule.generateNewTweetLoop p dryRun c w now random r).2
               = PostSchedule.randomMinutes c random * 60 * 1000).
  { unfold PostSchedule.generateNewTweetLoop.
    now destruct (_ && _); destruct (generateNewTweet p dryRun c w r). }
  split; [exact Hd|]. split; [exact Hb|].
  intros Heq. rewrite Hd. lia.
Qed.

Lemma next_check_within_bounds_witness :
  90 <= PostSchedule.randomMinutes Examples.plainClient (1 # 2) <= 180.
Proof.
  apply (proj1 (proj2 (next_check_within_bounds Examples.willy true
                         Examples.plainClient Examples.emptyWorld
                         Examples.now0 (1 # 2) Examples.firstRun
                         ltac:(discriminate) ltac:(reflexivity)
                         ltac:(discriminate)))).
Defined.

(** X18. With a draw in [0, 1) and [minMinutes] not above [maxMinutes], a
    run of the posting loop made less than [minMinutes] after the last post
    does not call [generateNewTweet], and a run made [maxMinutes] or more
    after it, the client being idle, does. *)
Theorem loop_posts_by_elapsed_time (p : Profile) (dryRun : bool) (c : Client)
    (w : World) (now : Z) (random : Q) (r : Readings) :
  (0 <= random)%Q -> (random < 1)%Q -> minMinutes c <= maxMinutes c ->
  (now - lastPostTime c < minMinutes c * 60000 ->
   (PostSchedule.generateNewTweetLoop p dryRun c w now random r).1 = (c, w))
  /\
  (maxMinutes c * 60000 <= now - lastPostTime c ->
   isPosting c = false ->
   (PostSchedule.generateNewTweetLoop p dryRun c w now random r).1
     = generateNewTweet p dryRun c w r).
Proof.
  intros H0 H1 Hmm.
  pose proof (randomMinutes_bounds c random H0 H1 Hmm) as Hb.
  unfold PostSchedule.generateNewTweetLoop. split.
  - intros Hearly.
    destruct (now - lastPostTime c >=? _) eqn:E; [|reflexivity].
    rewrite Z.geb_leb in E. apply Z.leb_le in E. lia.
  - intros Hdue Hidle. rewrite Hidle.
    destruct (now - lastPostTime c >=? _) eqn:E.
    + simpl. now destruct (generateNewTweet p dryRun c w r).
    + rewrite Z.geb_leb in E. apply Z.leb_gt in E. lia.
Qed.

Lemma loop_posts_by_elapsed_time_witness :
  (PostSchedule.generateNewTweetLoop Examples.willy true
     (PostSchedule.withLastPostTime Examples.now0 Examples.plainClient)
     Examples.emptyWorld (Examples.now0 + 60000) (1 # 2) Examples.firstRun).1
  = (PostSchedule.withLastPostTime Examples.now0 Examples.plainClient,
     Examples.emptyWorld).
Proof.
  apply (proj1 (loop_posts_by_elapsed_time Examples.willy true
                  (PostSchedule.withLastPostTime Examples.now0
                     Examples.plainClient)
                  Examples.emptyWorld (Examples.now0 + 60000) (1 # 2)
                  Examples.firstRun ltac:(discriminate) ltac:(reflexivity)
                  ltac:(discriminate))).
  reflexivity.
Defined.



End Posting.

(** ** More on the truncation *)

Section Truncation.

Lemma string_length_app (a b : string) :
  String.length (a ++ b) = (String.length a + String.length b)%nat.
Proof. induction a as [|c a IH]; simpl; [reflexivity|now rewrite IH]. Qed.

Lemma substring_0_length (n : nat) (s : string) :
  String.length (substring 0 n s) = Nat.min n (String.length s).
Proof.
  revert n. induction s as [|c s IH]; intros [|n]; simpl; try reflexivity.
  now rewrite IH.
Qed.

Lemma list_of_string_length (s : string) :
  List.length (list_ascii_of_string s) = String.length s.
Proof. induction s as [|c s IH]; simpl; [reflexivity|now rewrite IH]. Qed.

Lemma string_of_list_length (l : list ascii) :
  String.length (string_of_list_ascii l) = List.length l.
Proof. induction l as [|c l IH]; simpl; [reflexivity|now rewrite IH]. Qed.

Lemma trimStartList_length (l : list ascii) :
  (List.length (Js.trimStartList l) <= List.length l)%nat.
Proof.
  induction l as [|c l IH]; simpl; [lia|].
  destruct (Js.isWhiteSpace c); simpl; lia.
Qed.

Lemma trim_length (s : string) : Js.length (Js.trim s) <= Js.length s.
Proof.
  unfold Js.length, Js.trim, Js.trimList.
  rewrite string_of_list_length, length_rev.
  pose proof (trimStartList_length (rev (Js.trimStartList
                                           (list_ascii_of_string s)))) as H1.
  pose proof (trimStartList_length (list_ascii_of_string s)) as H2.
  rewrite length_rev in H1. rewrite list_of_string_length in H2. lia.
Qed.

Lemma slice0_length (s : string) (e : Z) :
  Js.length (Js.slice0 s e)
  = if e <? 0 then Z.max (Js.length s + e) 0
    else Z.min e (Js.length s).
Proof.
  unfold Js.slice0, Js.length. rewrite substring_0_length.
  destruct (e <? 0) eqn:E; [apply Z.ltb_lt in E|apply Z.ltb_ge in E]; lia.
Qed.

Lemma lastIndexOfFrom_bounds (c : ascii) (pos : Z) (s : string)
    (i found : Z) :
  Js.lastIndexOfFrom c pos s i found = found \/
  (i <= Js.lastIndexOfFrom c pos s i found <= pos /\
   String.get (Z.to_nat (Js.lastIndexOfFrom c pos s i found - i)) s
     = Some c).
Proof.
  revert i found. induction s as [|a s IH]; intros i found; simpl;
    [now left|].
  destruct (IH (i + 1) (if (i <=? pos) && Ascii.eqb a c then i else found))
    as [->|[Hb Hget]].
  - destruct ((i <=? pos) && Ascii.eqb a c) eqn:E; [|now left].
    right. apply andb_true_iff in E as [Hle Heq].
    apply Z.leb_le in Hle. apply Ascii.eqb_eq in Heq. subst a.
    rewrite Z.sub_diag. simpl. split; [lia|reflexivity].
  - right. split; [lia|].
    replace (Z.to_nat (Js.lastIndexOfFrom c pos s (i + 1)
               (if (i <=? pos) && Ascii.eqb a c then i else found) - i))
      with (S (Z.to_nat (Js.lastIndexOfFrom c pos s (i + 1)
               (if (i <=? pos) && Ascii.eqb a c then i else found)
               - (i + 1)))) by lia.
    exact Hget.
Qed.

Lemma get_some_lt (n : nat) (s : string) (c : ascii) :
  String.get n s = Some c -> (n < String.length s)%nat.
Proof.
  revert n. induction s as [|a s IH]; intros [|n]; simpl; try discriminate.
  - lia.
  - intros H. apply IH in H. lia.
Qed.

Lemma lastIndexOf_spec (s : string) (c : ascii) (position : Z) :
  Js.lastIndexOf s c position = -1 \/
  (0 <= Js.lastIndexOf s c position <= Z.max 0 position /\
   Js.lastIndexOf s c position < Js.length s /\
   String.get (Z.to_nat (Js.lastIndexOf s c position)) s = Some c).
Proof.
  unfold Js.lastIndexOf.
  destruct (lastIndexOfFrom_bounds c (Z.max 0 position) s 0 (-1))
    as [H|[Hb Hget]]; [now left|right].
  rewrite Z.sub_0_r in Hget. split; [exact Hb|]. split; [|exact Hget].
  apply get_some_lt in Hget. unfold Js.length. lia.
Qed.

Lemma get_in_substring (n : nat) (s : string) (c : ascii) :
  String.get n s = Some c ->
  In c (list_ascii_of_string (substring 0 (S n) s)).
Proof.
  revert n. induction s as [|a s IH]; intros [|n]; simpl; try discriminate.
  - intros [= ->]. now left.
  - intros H. right. now apply IH.
Qed.

Lemma trimStartList_keeps (c : ascii) (l : list ascii) :
  Js.isWhiteSpace c = false -> In c l -> In c (Js.trimStartList l).
Proof.
  intros Hc. induction l as [|a l IH]; simpl; [intros []|].
  destruct (Js.isWhiteSpace a) eqn:Ha; [|intros H; exact H].
  intros [->|H]; [congruence|now apply IH].
Qed.

Lemma trim_nonempty (c : ascii) (s : string) :
  Js.isWhiteSpace c = false -> In c (list_ascii_of_string s) ->
  0 < Js.length (Js.trim s).
Proof.
  intros Hc Hin. unfold Js.length, Js.trim, Js.trimList.
  rewrite string_of_list_length.
  assert (H : In c (rev (Js.trimStartList
                           (rev (Js.trimStartList (list_ascii_of_string s)))))).
  { apply in_rev. rewrite rev_involutive.
    apply trimStartList_keeps; [assumption|].
    apply in_rev. rewrite rev_involutive.
    now apply trimStartList_keeps. }
  destruct (rev _); [destruct H|simpl; lia].
Qed.

(** X20. [truncateToCompleteSentence] returns a text of at most 280 units
    unchanged, and never returns a text more than 2 units longer than the
    one it was given; when a space occurs among the first 281 units the
    result has at most 283 units. *)
Theorem truncation_growth_bounded (text : string) :
  (Js.length text <= MAX_TWEET_LENGTH ->
   truncateToCompleteSentence text = text) /\
  Js.length (truncateToCompleteSentence text) <= Js.length text + 2 /\
  (0 <= Js.lastIndexOf text " " MAX_TWEET_LENGTH ->
   Js.length (truncateToCompleteSentence text) <= 283).
Proof.
  unfold truncateToCompleteSentence, MAX_TWEET_LENGTH.
  destruct (Js.length text <=? 280) eqn:Hlen.
  { apply Z.leb_le in Hlen. repeat split; lia. }
  apply Z.leb_gt in Hlen.
  pose proof (lastIndexOf_spec text "." 280) as Hp.
  pose proof (lastIndexOf_spec text " " 280) as Hs.
  pose proof (trim_length (Js.slice0 text (Js.lastIndexOf text "." 280 + 1)))
    as Htp.
  pose proof (trim_length (Js.slice0 text (Js.lastIndexOf text " " 280)))
    as Hts.
  pose proof (trim_length (Js.slice0 text (280 - 3))) as Htf.
  rewrite slice0_length in Htp, Hts, Htf.
  assert (Happ : forall a, Js.length (a ++ "...") = Js.length a + 3).
  { intros a. unfold Js.length. rewrite string_length_app. simpl. lia. }
  split; [lia|].
  destruct (Js.length (Js.trim (Js.slice0 text _)) >? 0).
  - destruct (Js.lastIndexOf text "." 280 + 1 <? 0) eqn:E;
      [apply Z.ltb_lt in E|apply Z.ltb_ge in E]; split; lia.
  - destruct (Js.length (Js.trim (Js.slice0 text _)) >? 0);
      rewrite Happ.
    + destruct (Js.lastIndexOf text " " 280 <? 0) eqn:E;
        [apply Z.ltb_lt in E|apply Z.ltb_ge in E]; split; lia.
    + simpl in Htf. split; lia.
Qed.

Lemma truncation_growth_bounded_witness :
  truncateToCompleteSentence "gm frens." = "gm frens.".
Proof.
  apply (proj1 (truncation_growth_bounded "gm frens.")).
  vm_compute. discriminate.
Defined.

(** X21. When a text of more than 280 units has its last period at or
    before index 280 strictly before index 280, the result is the text up to
    and including that period, trimmed; it is not empty and fits in 280
    units. *)
Theorem truncation_at_period_fits (text : string) :
  MAX_TWEET_LENGTH < Js.length text ->
  0 <= Js.lastIndexOf text "." MAX_TWEET_LENGTH < MAX_TWEET_LENGTH ->
  truncateToCompleteSentence text
    = Js.trim (Js.slice0 text
                 (Js.lastIndexOf text "." MAX_TWEET_LENGTH + 1)) /\
  0 < Js.length (truncateToCompleteSentence text) <= MAX_TWEET_LENGTH.
Proof.
  unfold truncateToCompleteSentence, MAX_TWEET_LENGTH. intros Hlen Hperiod.
  destruct (Js.length text <=? 280) eqn:E; [apply Z.leb_le in E; lia|].
  destruct (lastIndexOf_spec text "." 280) as [H|(_ & Hlt & Hget)]; [lia|].
  assert (Hpos : 0 < Js.length
                       (Js.trim (Js.slice0 text
                                   (Js.lastIndexOf text "." 280 + 1)))).
  { apply (trim_nonempty "."%char); [reflexivity|].
    unfold Js.slice0.
    destruct (Js.lastIndexOf text "." 280 + 1 <? 0) eqn:E0;
      [apply Z.ltb_lt in E0; lia|].
    replace (Z.to_nat (Z.min (Js.lastIndexOf text "." 280 + 1)
                         (Js.length text)))
      with (S (Z.to_nat (Js.lastIndexOf text "." 280))) by lia.
    now apply get_in_substring. }
  pose proof (trim_length (Js.slice0 text (Js.lastIndexOf text "." 280 + 1)))
    as Htrim.
  rewrite slice0_length in Htrim.
  destruct (Js.lastIndexOf text "." 280 + 1 <? 0) eqn:E0;
    [apply Z.ltb_lt in E0; lia|].
  destruct (Js.length (Js.trim _) >? 0) eqn:Hgt.
  - split; [reflexivity|lia].
  - rewrite Z.gtb_ltb in Hgt. apply Z.ltb_ge in Hgt. lia.
Qed.

Lemma truncation_at_period_fits_witness :
  truncateToCompleteSentence Samples.sentenceAndTail = "gm frens." /\
  0 < Js.length (truncateToCompleteSentence Samples.sentenceAndTail)
    <= MAX_TWEET_LENGTH.
Proof.
  pose proof (truncation_at_period_fits Samples.sentenceAndTail) as H.
  destruct H as [Heq Hfit].
  - vm_compute. reflexivity.
  - split; vm_compute; [discriminate|reflexivity].
  - split; [|exact Hfit]. rewrite Heq. vm_compute. reflexivity.
Defined.

End Truncation.

(** ** More on the post client of [post.ts] *)

Section PostTsContents.
Import PostTs PostTsContent.

Lemma floor_index (random : Q) (n : Z) :
  (0 <= random)%Q -> (random < 1)%Q -> 0 < n ->
  0 <= Qfloor (random * inject_Z n) < n.
Proof.
  intros H0 H1 Hn.
  assert (Hq : (0 < inject_Z n)%Q).
  { change 0%Q with (inject_Z 0). now rewrite <- Zlt_Qlt. }
  split.
  - rewrite <- (Qfloor_Z 0). apply Qfloor_resp_le.
    apply Qmult_le_0_compat; [assumption|]. now apply Qlt_le_weak.
  - rewrite Zlt_Qlt. eapply Qle_lt_trans; [apply Qfloor_le|].
    apply Qlt_le_trans with (1 * inject_Z n)%Q.
    + now apply Qmult_lt_compat_r.
    + rewrite Qmult_1_l. apply Qle_refl.
Qed.

Lemma entryOf_key (type : string) (interaction : SpecialInteraction) :
  entryOf type SPECIAL_INTERACTIONS = Some interaction ->
  In (type, interaction) SPECIAL_INTERACTIONS.
Proof.
  generalize SPECIAL_INTERACTIONS as entries.
  induction entries as [|[k i] entries IH]; simpl; [discriminate|].
  destruct (String.eqb_spec k type) as [->|Hne].
  - intros [= ->]. now left.
  - intros H. right. now apply IH.
Qed.

Lemma entryOf_of_key (type : string) :
  In type (map fst SPECIAL_INTERACTIONS) ->
  exists interaction,
    entryOf type SPECIAL_INTERACTIONS = Some interaction /\
    templates interaction <> [].
Proof.
  simpl. intros [<-|[<-|[<-|[]]]]; eexists; (split; [reflexivity|discriminate]).
Qed.

(** Every special text of the table fits in a tweet. *)
Lemma special_texts_fit (type : string) (interaction : SpecialInteraction)
    (template : string) :
  In (type, interaction) SPECIAL_INTERACTIONS ->
  In template (templates interaction) ->
  Js.length (handle interaction ++ " " ++ template) <= MAX_TWEET_LENGTH.
Proof.
  assert (H : forallb
                (fun e : string * SpecialInteraction =>
                   forallb
                     (fun t => Js.length (handle e.2 ++ " " ++ t)
                               <=? MAX_TWEET_LENGTH)
                     (templates e.2))
                SPECIAL_INTERACTIONS = true) by (vm_compute; reflexivity).
  intros Hin Ht. rewrite forallb_forall in H. specialize (H _ Hin).
  rewrite forallb_forall in H. apply Z.leb_le. exact (H _ Ht).
Qed.

(** X22. In [post.ts], whenever [shouldGenerateSpecialInteraction] returns
    a type, the content of the post is the handle of that interaction, a
    space and one of its templates, whatever the generation pipeline would
    have answered: with a template draw in [0, 1) the index falls inside the
    templates, and the truncation leaves every special text of the table as
    it is.  The returned type is stored as the last interaction type. *)
Theorem special_content_in_post_ts (lastInteractionType : option string)
    (random randomTemplate : Q) (generated : Completion string)
    (type : string) :
  (shouldGenerateSpecialInteraction lastInteractionType random).1 = Some type ->
  (0 <= randomTemplate)%Q -> (randomTemplate < 1)%Q ->
  exists interaction template,
    In (type, interaction) SPECIAL_INTERACTIONS /\
    In template (templates interaction) /\
    generateContent lastInteractionType random randomTemplate generated
      = (Returned (handle interaction ++ " " ++ template)%string, Some type).
Proof.
  intros Hsome H0 H1. unfold generateContent.
  destruct (shouldGenerateSpecialInteraction lastInteractionType random)
    as [selected stored] eqn:Hcall.
  simpl in Hsome. subst selected.
  unfold shouldGenerateSpecialInteraction in Hcall.
  destruct (isSet lastInteractionType); [discriminate|].
  destruct (firstWithin random 0 SPECIAL_INTERACTIONS) as [type'|] eqn:Hfirst;
    [|discriminate].
  injection Hcall as -> <-.
  pose proof (firstWithin_is_key _ _ _ _ Hfirst) as Hkey.
  rewrite (SPECIAL_INTERACTIONS_keys_truthy type Hkey).
  destruct (entryOf_of_key type Hkey) as (i & Hentry & Hnonempty).
  unfold generateSpecialInteraction. rewrite Hentry.
  pose proof (entryOf_key type i Hentry) as Hin.
  assert (Hlen : 0 < Z.of_nat (List.length (templates i))).
  { destruct (templates i); [contradiction|simpl; lia]. }
  destruct (floor_index randomTemplate _ H0 H1 Hlen) as [Hlow Hhigh].
  destruct (Qfloor _ <? 0) eqn:E; [apply Z.ltb_lt in E; lia|].
  destruct (nth_error (templates i) (Z.to_nat (Qfloor _)))
    as [template|] eqn:Hnth.
  - apply nth_error_In in Hnth. simpl.
    exists i, template. repeat split; try assumption.
    now rewrite truncate_within_limit by now apply (special_texts_fit type i).
  - apply nth_error_None in Hnth. lia.
Qed.

Lemma special_content_in_post_ts_witness :
  exists interaction template,
    In ("hailey", interaction) SPECIAL_INTERACTIONS /\
    In template (templates interaction) /\
    generateContent None (2 # 10) (1 # 2) Threw
      = (Returned (handle interaction ++ " " ++ template)%string,
         Some "hailey").
Proof.
  apply (special_content_in_post_ts None (2 # 10) (1 # 2) Threw "hailey");
    [reflexivity|discriminate|reflexivity].
Defined.

End PostTsContents.

(** ** The configured special interactions ([environment.ts]) *)

Section Configuration.
Import Environment.

Lemma asProbability_range (value : option Json) (q : Q) :
  asProbability value = Some q -> (0 <= q)%Q /\ (q <= 1)%Q.
Proof.
  destruct value as [[| | q' | | |]|]; simpl; try discriminate.
  destruct (Qle_bool 0 q') eqn:E0; [|discriminate].
  destruct (Qle_bool q' 1) eqn:E1; [|discriminate].
  intros [= <-]. split; now apply Qle_bool_iff.
Qed.

Lemma specialInteractionSchema_range (value : Json) (i : SpecialInteraction) :
  specialInteractionSchema value = Some i ->
  (0 <= probability i)%Q /\ (probability i <= 1)%Q.
Proof.
  destruct value as [| | | | |fields]; simpl; try discriminate.
  destruct (asString (field "handle" fields)); [|discriminate].
  destruct (asStrings (field "topics" fields)); [|discriminate].
  destruct (asStrings (field "templates" fields)); [|discriminate].
  destruct (asProbability (field "probability" fields)) eqn:E; [|discriminate].
  intros [= <-]. simpl. now apply asProbability_range in E.
Qed.

Lemma validated_range (es : list (string * Json))
    (validated : gmap string SpecialInteraction) :
  (forall key i, validated !! key = Some i ->
     (0 <= probability i)%Q /\ (probability i <= 1)%Q) ->
  forall key i, fold_left validate es validated !! key = Some i ->
    (0 <= probability i)%Q /\ (probability i <= 1)%Q.
Proof.
  revert validated. induction es as [|[k v] es IH]; intros validated Hinv;
    simpl; [exact Hinv|].
  apply IH. intros key i. unfold validate. simpl.
  destruct (specialInteractionSchema v) as [i'|] eqn:E; [|apply Hinv].
  destruct (String.eqb k "__proto__"); [apply Hinv|].
  destruct (decide (k = key)) as [->|Hne].
  - rewrite lookup_insert_eq. intros [= <-].
    now apply specialInteractionSchema_range in E.
  - rewrite lookup_insert_ne by assumption. apply Hinv.
Qed.

Lemma field_absent (key : string) (es : list (string * Json)) :
  key ∉ es.*1 -> field key es = None.
Proof.
  induction es as [|[k v] es IH]; simpl; [reflexivity|].
  rewrite not_elem_of_cons. intros [Hne Hnot].
  destruct (String.eqb_spec k key) as [->|_]; [contradiction|]. now apply IH.
Qed.

Lemma validated_lookup (es : list (string * Json))
    (validated : gmap string SpecialInteraction) (key : string) :
  NoDup es.*1 ->
  fold_left validate es validated !! key =
    match field key es with
    | Some value =>
        if String.eqb key "__proto__" then validated !! key
        else
          match specialInteractionSchema value with
          | Some i => Some i
          | None => validated !! key
          end
    | None => validated !! key
    end.
Proof.
  revert validated. induction es as [|[k v] es IH]; intros validated Hnodup;
    simpl; [reflexivity|].
  simpl in Hnodup. apply NoDup_cons in Hnodup as [Hnot Hnodup].
  rewrite (IH _ Hnodup). unfold validate. simpl.
  destruct (String.eqb_spec k key) as [->|Hne].
  - rewrite (field_absent _ _ Hnot).
    destruct (specialInteractionSchema v) as [i|];
      destruct (String.eqb key "__proto__"); try reflexivity.
    now rewrite lookup_insert_eq.
  - assert (Hkept : (if specialInteractionSchema v is Some interaction
                     then if String.eqb k "__proto__" then validated
                          else <[k := interaction]> validated
                     else validated) !! key = validated !! key).
    { destruct (specialInteractionSchema v); [|reflexivity].
      destruct (String.eqb k "__proto__"); [reflexivity|].
      now rewrite lookup_insert_ne. }
    rewrite Hkept. reflexivity.
Qed.

(** X23. Whatever the setting [TWITTER_SPECIAL_INTERACTIONS] holds (absent,
    no JSON, a JSON value of any kind), every interaction that the transform
    of the schema stores has a probability between 0 and 1: an entry with a
    probability outside that range never reaches the client. *)
Theorem configured_probability_in_range (val : option (Completion Json))
    (key : string) (interaction : SpecialInteraction) :
  TWITTER_SPECIAL_INTERACTIONS val !! key = Some interaction ->
  (0 <= probability interaction)%Q /\ (probability interaction <= 1)%Q.
Proof.
  unfold TWITTER_SPECIAL_INTERACTIONS.
  destruct val as [[parsed|]|]; try (rewrite lookup_empty; discriminate).
  destruct (entries parsed) as [es|]; [|rewrite lookup_empty; discriminate].
  apply validated_range. intros k i. rewrite lookup_empty. discriminate.
Qed.

Lemma configured_probability_in_range_witness :
  (0 <= 3 # 10)%Q /\ (3 # 10 <= 1)%Q.
Proof.
  apply (configured_probability_in_range
           (Some (Returned Samples.interactionsSetting)) "tate"
           (mkSpecialInteraction "@tate" ["cars"] ["hello"] (3 # 10))).
  vm_compute. reflexivity.
Defined.

(** X24. For a setting that parses to a JSON object, each entry is
    validated on its own: the stored configuration holds, under every key
    other than [__proto__], exactly the parsed value of that key's entry
    when the entry satisfies the schema, and nothing when the key is absent
    or its entry is invalid.  An invalid entry does not discard the others;
    nothing is ever stored under [__proto__]. *)
Theorem entries_validated_one_by_one (fields : list (string * Json))
    (key : string) :
  NoDup fields.*1 ->
  TWITTER_SPECIAL_INTERACTIONS (Some (Returned (JObject fields))) !! key =
    if String.eqb key "__proto__" then None
    else field key fields ≫= specialInteractionSchema.
Proof.
  intros Hnodup. simpl. rewrite (validated_lookup _ _ _ Hnodup).
  rewrite lookup_empty.
  destruct (field key fields) as [value|]; simpl.
  - destruct (String.eqb key "__proto__"); [reflexivity|].
    now destruct (specialInteractionSchema value).
  - now destruct (String.eqb key "__proto__").
Qed.

Lemma entries_validated_one_by_one_witness :
  TWITTER_SPECIAL_INTERACTIONS (Some (Returned Samples.interactionsSetting))
    !! "loud" = None.
Proof.
  apply (entries_validated_one_by_one
           [("tate",
             JObject
               [("handle", JString "@tate");
                ("topics", JArray [JString "cars"]);
                ("templates", JArray [JString "hello"]);
                ("probability", JNumber (3 # 10));
                ("note", JBool true)]);
            ("loud",
             JObject
               [("handle", JString "@loud");
                ("topics", JArray []);
                ("templates", JArray [JString "hey"]);
                ("probability", JNumber (3 # 2))]);
            ("none", JNull)] "loud").
  apply (bool_decide_unpack _). vm_compute. reflexivity.
Defined.

End Configuration.
